(** * Product media gallery: variant-change handling

    A shallow embedding of [assets/component-product-media-variant-handler.js],
    the [product-media] custom element that keeps a main slider and a
    thumbnail slider in step with the selected product variant.

    The JavaScript is single-threaded and event-driven.  The embedding keeps
    the pieces of the browser the element talks to (timer table, animation
    frame queue, listener lists, custom element registry) in an explicit
    state, and writes every method as a computation in a state-and-exception
    monad, so that a thrown [TypeError] and the effects that happened before
    it are both visible. *)

From Stdlib Require Import ZArith String DecimalString Lia.
From stdpp Require Import base option list strings gmap.

Set Warnings "-clear-no-such-hyp".

Open Scope string_scope.
Open Scope list_scope.
Open Scope nat_scope.

(** ** JavaScript values *)

(** The integers that a JavaScript number holds exactly, all of which
    [toString] prints in plain decimal digits. *)
Definition MAX_SAFE_INTEGER : Z := 9007199254740991.

Record SafeInt : Type := mkSafeInt {
  intValue : Z;
  intSafe : (Z.abs intValue <=? MAX_SAFE_INTEGER)%Z = true
}.

(** Values that reach the element through event payloads.  Numbers are the
    safe integers (variant identifiers are such integers); objects are plain
    data objects given by their own properties, none of which is a function;
    of a property listed twice the first entry counts. *)
#[warnings="-register-all"]
Inductive Value : Type :=
| VUndefined
| VNull
| VBool (b : bool)
| VNum (n : SafeInt)
| VStr (s : string)
| VObj (props : list (string * Value)).

(** The number [z], for a literal [z] in the safe range. *)
Abbreviation VInt z := (VNum (mkSafeInt z eq_refl)).

Inductive JsError : Type :=
| TypeError
| NotSupportedError.

Inductive Completion (A : Type) : Type :=
| Normal (a : A)
| Throw (e : JsError).
Arguments Normal {A} a.
Arguments Throw {A} e.

(** ToBoolean. *)
Definition truthy (v : Value) : bool :=
  match v with
  | VUndefined | VNull => false
  | VBool b => b
  | VNum n => negb (Z.eqb (intValue n) 0%Z)
  | VStr s => negb (String.eqb s "")
  | VObj _ => true
  end.

Fixpoint ownProp (props : list (string * Value)) (k : string) : Value :=
  match props with
  | [] => VUndefined
  | (k', v) :: rest => if String.eqb k' k then v else ownProp rest k
  end.

(** ** State and exceptions *)

(** A computation over a state [S] either completes normally or throws; in
    both cases the state reached so far is returned. *)
Definition Eff (S A : Type) : Type := S → Completion A * S.

Definition eff_ret {S A} (a : A) : Eff S A := λ s, (Normal a, s).

Definition eff_bind {S A B} (f : A → Eff S B) (m : Eff S A) : Eff S B :=
  λ s, match m s with
       | (Normal a, s') => f a s'
       | (Throw e, s') => (Throw e, s')
       end.

Definition throw {S A} (e : JsError) : Eff S A := λ s, (Throw e, s).
Definition get_state {S} : Eff S S := λ s, (Normal s, s).
Definition modify {S} (f : S → S) : Eff S unit := λ s, (Normal tt, f s).

#[global] Instance eff_mret {S} : MRet (Eff S) := @eff_ret S.
#[global] Instance eff_mbind {S} : MBind (Eff S) := @eff_bind S.

(** State reached by a computation, whatever its completion. *)
Definition exec {S A} (m : Eff S A) (s : S) : S := snd (m s).

(** [xs.forEach(x => ...)] where the callback updates a captured local. *)
Fixpoint forEachAcc {S A B} (xs : list A) (f : A → B → Eff S B) (acc : B)
  : Eff S B :=
  match xs with
  | [] => mret acc
  | x :: rest => acc' ← f x acc; forEachAcc rest f acc'
  end.

(** [xs.forEach(x => ...)] for a callback run for its effects only. *)
Fixpoint forEach {S A} (xs : list A) (f : A → Eff S unit) : Eff S unit :=
  match xs with
  | [] => mret tt
  | x :: rest => f x;; forEach rest f
  end.

(** Does the object have an own property [k]? *)
Fixpoint hasOwn (props : list (string * Value)) (k : string) : bool :=
  match props with
  | [] => false
  | (k', _) :: rest => String.eqb k' k || hasOwn rest k
  end.

(** [v.prop], for the property names the component reads ([detail],
    [variant], [id]), none of which is found on a prototype: a [TypeError]
    on [undefined] and [null], [undefined] on the other primitives, the own
    property on objects. *)
Definition getProp {S} (v : Value) (k : string) : Eff S Value :=
  match v with
  | VUndefined | VNull => throw TypeError
  | VObj props => mret (ownProp props k)
  | _ => mret VUndefined
  end.

(** [v.toString()].  [undefined] and [null] have no properties.  A plain
    object inherits [Object.prototype.toString] unless it has an own
    [toString] property, which then is what gets called; as no property of a
    payload object is a function, that call is a [TypeError]. *)
Definition toString {S} (v : Value) : Eff S string :=
  match v with
  | VUndefined | VNull => throw TypeError
  | VBool true => mret "true"
  | VBool false => mret "false"
  | VNum n => mret (NilZero.string_of_int (Z.to_int (intValue n)))
  | VStr s => mret s
  | VObj props =>
      if hasOwn props "toString" then throw TypeError
      else mret "[object Object]"
  end.

(** The string form of a value, when it has one. *)
Definition stringForm (v : Value) : option string :=
  match @toString unit v tt with
  | (Normal s, _) => Some s
  | (Throw _, _) => None
  end.

(** [a && b], with [b] evaluated only when [a] is truthy. *)
Definition js_and {S} (a : Value) (b : Eff S Value) : Eff S Value :=
  if truthy a then b else mret a.

(** ** The DOM under the component *)

(** One [.swiper-slide] element inside the component.  [inMain] and
    [inThumbs] record which of the two selectors the element matches. *)
Record Slide : Type := mkSlide {
  inMain : bool;                  (* [data-slider-main] .swiper-slide *)
  inThumbs : bool;                (* [data-media-thumbnails] .swiper-slide *)
  dataVariantId : option string;  (* getAttribute('data-variant-id') *)
  styleDisplay : string;          (* style.display *)
  styleVisibility : string        (* style.visibility *)
}.

Definition setDisplay (d : string) (e : Slide) : Slide :=
  mkSlide (inMain e) (inThumbs e) (dataVariantId e) d (styleVisibility e).

Definition setVisibility (v : string) (e : Slide) : Slide :=
  mkSlide (inMain e) (inThumbs e) (dataVariantId e) (styleDisplay e) v.

(** Elements are referred to by their position in document order. *)
Fixpoint selectFrom (p : Slide → bool) (i : nat) (l : list Slide) : list nat :=
  match l with
  | [] => []
  | e :: rest => if p e then i :: selectFrom p (S i) rest
                 else selectFrom p (S i) rest
  end.

(** [null === s] is false; two strings are compared by content. *)
Definition strictEq (a : option string) (s : string) : bool :=
  match a with
  | Some a' => String.eqb a' s
  | None => false
  end.

(** Truthiness of what [getAttribute] returns: [null] and [''] are falsy. *)
Definition attrTruthy (a : option string) : bool :=
  match a with
  | Some a' => negb (String.eqb a' "")
  | None => false
  end.

(** ** Sliders, timers, frames *)

Record Swiper : Type := mkSwiper {
  activeIndex : nat;   (* slide the carousel is positioned on *)
  updateCount : nat    (* how often update() recomputed the slide list *)
}.

Inductive SliderName : Type := Thumbs | Main.

Record Timer : Type := mkTimer {
  tid : nat;      (* handle returned by setTimeout *)
  due : nat;      (* time at which the callback becomes runnable *)
  arg : Value     (* the variantId captured by the callback *)
}.

(** The two arrow functions handed to [requestAnimationFrame]. *)
Inductive RafCallback : Type :=
| RefreshSliders
| AnnounceUpdated.

(** The two arrow functions registered by [connectedCallback]: the one
    given to [window.eventBus.on] and the one given to
    [document.addEventListener]. *)
Inductive BusHandler : Type := BusListener.
Inductive DocHandler : Type := DocListener.

(** What an observer of the page can see happen, in order. *)
Inductive Obs : Type :=
| ObsHandle (variantId : Value)   (* a listener called handleVariantChange *)
| ObsSync (variantId : Value)     (* the timer called updateMediaForVariant *)
| ObsUncaught (e : JsError)       (* an exception escaped a task *)
| ObsUpdate (which : SliderName)  (* swiper.update() *)
| ObsSlideTo (which : SliderName) (index : nat)
| ObsDispatch (type : string).    (* document.dispatchEvent(new CustomEvent(type)) *)

Record World : Type := mkWorld {
  (* the component instance *)
  slides : list Slide;
  debounceTimer : option nat;        (* null, or a timer handle *)
  swiperThumbs : option Swiper;
  swiperMain : option Swiper;
  (* the page *)
  clock : nat;
  nextTimerId : nat;
  timers : list Timer;               (* pending timeouts, by due time *)
  rafQueue : list RafCallback;
  eventBus : option (list BusHandler); (* window.eventBus, 'variant:change' handlers *)
  docListeners : list DocHandler;     (* document listeners for 'variant:change' *)
  trace : list Obs
}.

(** Computations of the page. *)
Abbreviation Js := (Eff World).

Definition withSlides (x : list Slide) (w : World) : World :=
  mkWorld x (debounceTimer w) (swiperThumbs w) (swiperMain w) (clock w)
    (nextTimerId w) (timers w) (rafQueue w) (eventBus w) (docListeners w)
    (trace w).

Definition withDebounceTimer (x : option nat) (w : World) : World :=
  mkWorld (slides w) x (swiperThumbs w) (swiperMain w) (clock w)
    (nextTimerId w) (timers w) (rafQueue w) (eventBus w) (docListeners w)
    (trace w).

Definition withSwiperThumbs (x : option Swiper) (w : World) : World :=
  mkWorld (slides w) (debounceTimer w) x (swiperMain w) (clock w)
    (nextTimerId w) (timers w) (rafQueue w) (eventBus w) (docListeners w)
    (trace w).

Definition withSwiperMain (x : option Swiper) (w : World) : World :=
  mkWorld (slides w) (debounceTimer w) (swiperThumbs w) x (clock w)
    (nextTimerId w) (timers w) (rafQueue w) (eventBus w) (docListeners w)
    (trace w).

Definition withClock (x : nat) (w : World) : World :=
  mkWorld (slides w) (debounceTimer w) (swiperThumbs w) (swiperMain w) x
    (nextTimerId w) (timers w) (rafQueue w) (eventBus w) (docListeners w)
    (trace w).

Definition withNextTimerId (x : nat) (w : World) : World :=
  mkWorld (slides w) (debounceTimer w) (swiperThumbs w) (swiperMain w)
    (clock w) x (timers w) (rafQueue w) (eventBus w) (docListeners w)
    (trace w).

Definition withTimers (x : list Timer) (w : World) : World :=
  mkWorld (slides w) (debounceTimer w) (swiperThumbs w) (swiperMain w)
    (clock w) (nextTimerId w) x (rafQueue w) (eventBus w) (docListeners w)
    (trace w).

Definition withRafQueue (x : list RafCallback) (w : World) : World :=
  mkWorld (slides w) (debounceTimer w) (swiperThumbs w) (swiperMain w)
    (clock w) (nextTimerId w) (timers w) x (eventBus w) (docListeners w)
    (trace w).

Definition withEventBus (x : option (list BusHandler)) (w : World) : World :=
  mkWorld (slides w) (debounceTimer w) (swiperThumbs w) (swiperMain w)
    (clock w) (nextTimerId w) (timers w) (rafQueue w) x (docListeners w)
    (trace w).

Definition withDocListeners (x : list DocHandler) (w : World) : World :=
  mkWorld (slides w) (debounceTimer w) (swiperThumbs w) (swiperMain w)
    (clock w) (nextTimerId w) (timers w) (rafQueue w) (eventBus w) x
    (trace w).

Definition withTrace (x : list Obs) (w : World) : World :=
  mkWorld (slides w) (debounceTimer w) (swiperThumbs w) (swiperMain w)
    (clock w) (nextTimerId w) (timers w) (rafQueue w) (eventBus w)
    (docListeners w) x.

(** ** Browser primitives *)

Definition observe (o : Obs) : Js unit :=
  modify (λ w, withTrace (trace w ++ [o]) w).

(** The timer table is kept in firing order: a new entry goes behind every
    entry that is due no later than it. *)
Fixpoint enqueueTimer (t : Timer) (q : list Timer) : list Timer :=
  match q with
  | [] => [t]
  | t' :: rest => if due t' <=? due t then t' :: enqueueTimer t rest
                  else t :: q
  end.

(** [setTimeout(() => this.updateMediaForVariant(variantId), delay)]; handles
    are handed out in increasing order. *)
Definition setTimeout (variantId : Value) (delay : nat) : Js nat :=
  λ w, let h := nextTimerId w in
       (Normal h,
        withNextTimerId (S h)
          (withTimers (enqueueTimer (mkTimer h (clock w + delay) variantId)
                         (timers w)) w)).

(** [clearTimeout(h)]: a handle that is not pending is ignored. *)
Definition clearTimeout (h : nat) : Js unit :=
  modify (λ w, withTimers (List.filter (λ t, negb (tid t =? h)) (timers w)) w).

Definition requestAnimationFrame (cb : RafCallback) : Js unit :=
  modify (λ w, withRafQueue (rafQueue w ++ [cb]) w).

(** [this.querySelectorAll(selector)]: the matching elements, in document
    order. *)
Definition querySelectorAll (selector : Slide → bool) : Js (list nat) :=
  λ w, (Normal (selectFrom selector 0 (slides w)), w).

(** [slide.getAttribute('data-variant-id')]. *)
Definition getAttribute (node : nat) : Js (option string) :=
  λ w, (Normal (slides w !! node ≫= dataVariantId), w).

(** [slide.style.display = d] and [slide.style.visibility = v]. *)
Definition assignDisplay (node : nat) (d : string) : Js unit :=
  modify (λ w, withSlides (alter (setDisplay d) node (slides w)) w).

Definition assignVisibility (node : nat) (v : string) : Js unit :=
  modify (λ w, withSlides (alter (setVisibility v) node (slides w)) w).

(** ** The component *)

Definition DEBOUNCE_DELAY : nat := 100.

Record VariantData : Type := mkVariantData {
  id : Value;
  hasMetafieldImages : bool
}.

(** Truthiness of [this.debounceTimer]: [null] and [0] are falsy. *)
Definition handleTruthy (h : option nat) : bool :=
  match h with
  | Some (S _) => true
  | _ => false
  end.

Definition handleVariantChange (variantId : Value) : Js unit :=
  w ← get_state;
  (if handleTruthy (debounceTimer w)
   then clearTimeout (default 0 (debounceTimer w))
   else mret tt);;
  h ← setTimeout variantId DEBOUNCE_DELAY;
  modify (withDebounceTimer (Some h)).

(** The first [forEach] of [updateMediaForVariant]: the scan of the main
    slides, which assigns the local [variantData]. *)
Definition scanMainSlides (variantId : Value) : Js (option VariantData) :=
  mainSlides ← querySelectorAll inMain;
  forEachAcc mainSlides
    (λ slide variantData,
       slideVariantId ← getAttribute slide;
       s ← toString variantId;
       if strictEq slideVariantId s
       then mret (Some (mkVariantData variantId true))
       else mret variantData)
    None.

(** [!variantData || !variantData.hasMetafieldImages]. *)
Definition lacksMedia (variantData : option VariantData) : bool :=
  match variantData with
  | None => true
  | Some d => negb (hasMetafieldImages d)
  end.

(** The body of the second [forEach]: show, hide or skip one thumbnail. *)
Definition showOrHide (variantId : Value) (slide : nat) : Js unit :=
  slideVariantId ← getAttribute slide;
  s ← toString variantId;
  if strictEq slideVariantId s
  then assignDisplay slide "";; assignVisibility slide "visible"
  else if attrTruthy slideVariantId
       then assignDisplay slide "none"
       else mret tt.

Definition updateMediaForVariant (variantId : Value) : Js unit :=
  variantData ← scanMainSlides variantId;
  if lacksMedia variantData then mret tt
  else
    thumbnailSlides ← querySelectorAll inThumbs;
    forEach thumbnailSlides (showOrHide variantId);;
    requestAnimationFrame RefreshSliders.

(** [swiper.update(); swiper.slideTo(0)] on a slider that is present. *)
Definition refreshed (s : Swiper) : Swiper :=
  mkSwiper 0 (S (updateCount s)).

Definition refreshThumbs : Js unit :=
  w ← get_state;
  match swiperThumbs w with
  | Some s =>
      observe (ObsUpdate Thumbs);; observe (ObsSlideTo Thumbs 0);;
      modify (withSwiperThumbs (Some (refreshed s)))
  | None => mret tt
  end.

Definition refreshMain : Js unit :=
  w ← get_state;
  match swiperMain w with
  | Some s =>
      observe (ObsUpdate Main);; observe (ObsSlideTo Main 0);;
      modify (withSwiperMain (Some (refreshed s)))
  | None => mret tt
  end.

Definition MEDIA_UPDATED : string := "product-media:updated".

Definition runRafCallback (cb : RafCallback) : Js unit :=
  match cb with
  | RefreshSliders =>
      refreshThumbs;; refreshMain;; requestAnimationFrame AnnounceUpdated
  | AnnounceUpdated => observe (ObsDispatch MEDIA_UPDATED)
  end.

(** The guard and call shared by both listeners:
    [if (data && data.variant) this.handleVariantChange(data.variant.id)]. *)
Definition onVariantChange (data : Value) : Js unit :=
  c ← js_and data (getProp data "variant");
  if truthy c
  then
    variant ← getProp data "variant";
    variantId ← getProp variant "id";
    observe (ObsHandle variantId);;
    handleVariantChange variantId
  else mret tt.

(** The bus handler is called with the payload, the document listener with
    the event object. *)
Definition runBusHandler (h : BusHandler) (data : Value) : Js unit :=
  onVariantChange data.

Definition runDocHandler (h : DocHandler) (event : Value) : Js unit :=
  detail ← getProp event "detail";
  onVariantChange detail.

Definition connectedCallback : Js unit :=
  w ← get_state;
  match eventBus w with
  | Some handlers => modify (withEventBus (Some (handlers ++ [BusListener])))
  | None => mret tt
  end;;
  modify (λ w, withDocListeners (docListeners w ++ [DocListener]) w).

Definition disconnectedCallback : Js unit :=
  w ← get_state;
  if handleTruthy (debounceTimer w)
  then clearTimeout (default 0 (debounceTimer w))
  else mret tt.

(** ** The event loop *)

(** A task of the event loop.  An exception that escapes the task is reported
    and the loop carries on with the state the task had reached. *)
Definition runTask (m : Js unit) (w : World) : World :=
  match m w with
  | (Normal _, w') => w'
  | (Throw e, w') => withTrace (trace w' ++ [ObsUncaught e]) w'
  end.

(** The arrow function given to [setTimeout] in [handleVariantChange]. *)
Definition timerCallback (t : Timer) : Js unit :=
  observe (ObsSync (arg t));;
  updateMediaForVariant (arg t).

Definition isDue (target : nat) (t : Timer) : bool := due t <=? target.

(** [ms] time units pass: every timer that has become due fires, in order. *)
Definition elapse (ms : nat) (w : World) : World :=
  let target := clock w + ms in
  let ready := List.filter (isDue target) (timers w) in
  let waiting := List.filter (λ t, negb (isDue target t)) (timers w) in
  withClock target
    (foldl (λ w t, runTask (timerCallback t) w) (withTimers waiting w) ready).

(** An animation frame: the callbacks queued so far run in order; what they
    queue waits for the next frame. *)
Definition frame (w : World) : World :=
  foldl (λ w cb, runTask (runRafCallback cb) w) (withRafQueue [] w)
    (rafQueue w).

(** Delivery of one notification to the listeners of a channel. *)
Definition deliver {L} (call : L → Value → Js unit) (ls : list L) (x : Value)
    (w : World) : World :=
  foldl (λ w l, runTask (call l x) w) w ls.

(** [new CustomEvent('variant:change', { detail })]. *)
Definition customEvent (detail : Value) : Value :=
  VObj [("type", VStr "variant:change"); ("detail", detail)].

Inductive Event : Type :=
| Attach                        (* the element is inserted into the document *)
| Detach                        (* the element is removed from the document *)
| BusEmit (data : Value)        (* window.eventBus emits 'variant:change' *)
| DocDispatch (detail : Value)  (* a 'variant:change' event on document *)
| Elapse (ms : nat)
| Frame.

Definition step (e : Event) (w : World) : World :=
  match e with
  | Attach => runTask connectedCallback w
  | Detach => runTask disconnectedCallback w
  | BusEmit data =>
      match eventBus w with
      | Some handlers => deliver runBusHandler handlers data w
      | None => w
      end
  | DocDispatch detail =>
      deliver runDocHandler (docListeners w) (customEvent detail) w
  | Elapse ms => elapse ms w
  | Frame => frame w
  end.

Definition run (es : list Event) (w : World) : World := foldl (flip step) w es.

(** The page right after the constructor ran: no timer, no listener. *)
Definition init (dom : list Slide) (bus : bool)
    (thumbs main : option Swiper) : World :=
  mkWorld dom None thumbs main 0 1 [] []
    (if bus then Some [] else None) [] [].

(** The identifiers for which the timer started a synchronization. *)
Definition syncOf (o : Obs) : option Value :=
  match o with
  | ObsSync v => Some v
  | _ => None
  end.

Definition syncs (w : World) : list Value := omap syncOf (trace w).

(** The identifiers with which a listener called [handleVariantChange]. *)
Definition handleOf (o : Obs) : option Value :=
  match o with
  | ObsHandle v => Some v
  | _ => None
  end.

Definition handled (w : World) : list Value := omap handleOf (trace w).

Definition isDispatch (o : Obs) : bool :=
  match o with
  | ObsDispatch _ => true
  | _ => false
  end.

(** ** Registration *)

Inductive Ctor : Type :=
| ProductMedia
| ForeignElement.

(** [customElements] with the successful [define] calls, latest last. *)
Record Page : Type := mkPage {
  registry : gmap string Ctor;
  defined : list string
}.

Definition customElementsGet (name : string) : Eff Page (option Ctor) :=
  λ p, (Normal (registry p !! name), p).

(** [customElements.define] refuses a name that is already taken. *)
Definition customElementsDefine (name : string) (c : Ctor) : Eff Page unit :=
  λ p, match registry p !! name with
       | Some _ => (Throw NotSupportedError, p)
       | None => (Normal tt, mkPage (<[name := c]> (registry p))
                               (defined p ++ [name]))
       end.

Definition TAG : string := "product-media".

(** The script as a whole: line 1 guards the class and line 96. *)
Definition registerElement : Eff Page unit :=
  existing ← customElementsGet TAG;
  if negb (bool_decide (is_Some existing))
  then customElementsDefine TAG ProductMedia
  else mret tt.

(** The script evaluated [n] times on one page; an exception stops only the
    evaluation it occurs in and is counted. *)
Fixpoint loadScript (n : nat) (p : Page) : nat * Page :=
  match n with
  | 0 => (0, p)
  | S n' =>
      match registerElement p with
      | (Normal _, p') => loadScript n' p'
      | (Throw _, p') => let '(k, p'') := loadScript n' p' in (S k, p'')
      end
  end.

Definition timesDefined (name : string) (p : Page) : nat :=
  length (List.filter (String.eqb name) (defined p)).

(** ** Functional description of a synchronization

    What [updateMediaForVariant] is shown to compute (lemma
    [updateMediaForVariant_spec] below). *)

(** Does the slide sit in the main gallery and carry the identifier? *)
Definition mainMatch (str : string) (e : Slide) : bool :=
  inMain e && strictEq (dataVariantId e) str.

(** The effect of the second loop on one element of the component. *)
Definition shown (e : Slide) : Slide := setVisibility "visible" (setDisplay "" e).

Definition syncSlide (str : string) (e : Slide) : Slide :=
  if inThumbs e then
    if strictEq (dataVariantId e) str then shown e
    else if attrTruthy (dataVariantId e) then setDisplay "none" e
    else e
  else e.

(** The state after the whole method, for an identifier with string form
    [str]. *)
Definition synced (str : string) (w : World) : World :=
  if existsb (mainMatch str) (slides w)
  then withRafQueue (rafQueue w ++ [RefreshSliders])
         (withSlides (map (syncSlide str) (slides w)) w)
  else w.

(** ** Observations on frames *)

(** [n] animation frames in a row. *)
Fixpoint frames (n : nat) (w : World) : World :=
  match n with
  | 0 => w
  | S n' => frames n' (frame w)
  end.

(** How many document-level notifications the component has dispatched. *)
Definition dispatches (w : World) : nat :=
  length (List.filter isDispatch (trace w)).

(** The slider calls made by the refresh callback in state [w]: the thumbnail
    slider first, then the main slider, each only when attached. *)
Definition refreshObs (w : World) : list Obs :=
  match swiperThumbs w with
  | Some _ => [ObsUpdate Thumbs; ObsSlideTo Thumbs 0]
  | None => []
  end
  ++ match swiperMain w with
     | Some _ => [ObsUpdate Main; ObsSlideTo Main 0]
     | None => []
     end.

Definition sameCallback (a b : RafCallback) : bool :=
  match a, b with
  | RefreshSliders, RefreshSliders | AnnounceUpdated, AnnounceUpdated => true
  | _, _ => false
  end.

Definition countCallback (cb : RafCallback) (q : list RafCallback) : nat :=
  length (List.filter (sameCallback cb) q).

(** ** The debounce invariant *)

(** The part of the page that timers and subscriptions live in. *)
Definition control (w : World)
  : option nat * nat * nat * list Timer * option (list BusHandler)
    * list DocHandler :=
  (debounceTimer w, clock w, nextTimerId w, timers w, eventBus w,
   docListeners w).

(** Handles start at 1, at most one timeout of the component is pending, and
    [this.debounceTimer] holds its handle. *)
Definition wf (w : World) : Prop :=
  0 < nextTimerId w ∧
  length (timers w) ≤ 1 ∧
  ∀ t, t ∈ timers w → debounceTimer w = Some (tid t) ∧ 0 < tid t.

(** Events during which no notification reaches [handleVariantChange]: time
    passing, frames, attaching and detaching, and notifications whose payload
    does not pass the guard of the listeners. *)
Definition propsOf (v : Value) : list (string * Value) :=
  match v with
  | VObj props => props
  | _ => []
  end.

Definition passesGuard (data : Value) : bool :=
  truthy data && truthy (ownProp (propsOf data) "variant").

(** [data.variant.id] of a payload that passes the guard. *)
Definition payloadId (data : Value) : Value :=
  ownProp (propsOf (ownProp (propsOf data) "variant")) "id".

Definition isQuiet (e : Event) : bool :=
  match e with
  | Elapse _ | Frame => true
  | _ => false
  end.

Definition isInert (e : Event) : bool :=
  match e with
  | BusEmit data | DocDispatch data => negb (passesGuard data)
  | _ => true
  end.

(** Time that passes during a sequence of events. *)
Fixpoint elapsed (es : list Event) : nat :=
  match es with
  | [] => 0
  | Elapse ms :: rest => ms + elapsed rest
  | _ :: rest => elapsed rest
  end.

(** A burst of notifications: before each one some quiet events happen. *)
Fixpoint burst (ns : list (list Event * Value)) (w : World) : World :=
  match ns with
  | [] => w
  | (gap, v) :: rest => burst rest (exec (handleVariantChange v) (run gap w))
  end.

(** [k] rounds of attaching the element and detaching it again. *)
Fixpoint cycles (k : nat) (w : World) : World :=
  match k with
  | 0 => w
  | S k' => cycles k' (step Detach (step Attach w))
  end.

(** [{ variant: { id: v } }], the payload of a well-formed notification. *)
Definition variantPayload (v : Value) : Value :=
  VObj [("variant", VObj [("id", v)])].

(** One notification as seen by one listener of the component. *)
Definition received (data : Value) (w : World) : World :=
  if passesGuard data
  then exec (handleVariantChange (payloadId data))
         (withTrace (trace w ++ [ObsHandle (payloadId data)]) w)
  else w.

(** ** A sample page

    Main slides for variants 1 and 2; thumbnails for 1 (hidden), 2 (visible)
    and one shared thumbnail; both sliders attached; an event bus present. *)
Definition galleryAB : list Slide :=
  [ mkSlide true false (Some "1") "" "";
    mkSlide true false (Some "2") "" "";
    mkSlide false true (Some "1") "none" "hidden";
    mkSlide false true (Some "2") "" "visible";
    mkSlide false true None "none" "hidden" ].

Definition pageAB : World :=
  init galleryAB true (Some (mkSwiper 3 0)) (Some (mkSwiper 2 0)).

(** ** Further descriptions used by the page-wide properties *)

(** What the component never writes on a slide: its gallery membership and
    its variant attribute. *)
Definition shape (e : Slide) : bool * bool * option string :=
  (inMain e, inThumbs e, dataVariantId e).

(** The exceptions that escaped a task so far. *)
Definition uncaughtOf (o : Obs) : option JsError :=
  match o with
  | ObsUncaught e => Some e
  | _ => None
  end.

Definition uncaught (w : World) : list JsError := omap uncaughtOf (trace w).

(** The slider calls observed so far, for one slider. *)
Definition callsOn (which : SliderName) (o : Obs) : bool :=
  match o, which with
  | ObsUpdate Thumbs, Thumbs | ObsSlideTo Thumbs _, Thumbs
  | ObsUpdate Main, Main | ObsSlideTo Main _, Main => true
  | _, _ => false
  end.

Definition sliderCalls (which : SliderName) (w : World) : list Obs :=
  List.filter (callsOn which) (trace w).

(** The page after [handleVariantChange v] on a page with nothing else
    pending. *)
Definition scheduled (v : Value) (w : World) : World :=
  withDebounceTimer (Some (nextTimerId w))
    (withNextTimerId (S (nextTimerId w))
       (withTimers [mkTimer (nextTimerId w) (clock w + DEBOUNCE_DELAY) v] w)).

(** The page after the callback of timeout [t] ran as a task. *)
Definition fired (t : Timer) (w : World) : World :=
  let w0 := withTrace (trace w ++ [ObsSync (arg t)]) w in
  match stringForm (arg t) with
  | Some str => synced str w0
  | None =>
      if existsb inMain (slides w0)
      then withTrace (trace w0 ++ [ObsUncaught TypeError]) w0
      else w0
  end.

(** The page after [connectedCallback]. *)
Definition attached (w : World) : World :=
  withDocListeners (docListeners w ++ [DocListener])
    (withEventBus ((λ hs, hs ++ [BusListener]) <$> eventBus w) w).

(** [toString()] returns a string for the identifier: it is a boolean, a
    number, a string, or an object without an own [toString] property. *)
Definition printable (v : Value) : bool :=
  match stringForm v with
  | Some _ => true
  | None => false
  end.

Definition idPrintable (e : Event) : bool :=
  match e with
  | BusEmit data | DocDispatch data =>
      negb (passesGuard data) || printable (payloadId data)
  | _ => true
  end.

(** A pending timeout lies in the future, at most one delay away. *)
Definition dueSoon (w : World) : Prop :=
  ∀ t, t ∈ timers w → clock w < due t ∧ due t ≤ clock w + DEBOUNCE_DELAY.

(** What is assumed of the identifiers that an event hands to
    [handleVariantChange]. *)
Definition notifies (Q : Value → Prop) (e : Event) : Prop :=
  match e with
  | BusEmit data | DocDispatch data =>
      passesGuard data = true → Q (payloadId data)
  | _ => True
  end.

(** * Properties *)

(** ** Unfolding computations *)

Ltac eff_unfold :=
  unfold mbind, mret, eff_mbind, eff_mret, eff_bind, eff_ret, throw,
    get_state, modify, exec in *.

Lemma bind_normal {S A B} (m : Eff S A) (f : A → Eff S B) s a s' :
  m s = (Normal a, s') → (m ≫= f) s = f a s'.
Proof. intros H. eff_unfold. by rewrite H. Qed.

Lemma bind_throw {S A B} (m : Eff S A) (f : A → Eff S B) s e s' :
  m s = (Throw e, s') → (m ≫= f) s = (Throw e, s').
Proof. intros H. eff_unfold. by rewrite H. Qed.

Lemma toString_stringForm {S} v str (s : S) :
  stringForm v = Some str → toString v s = (Normal str, s).
Proof.
  unfold stringForm.
  destruct v as [| |[]| | |props]; cbn;
    try destruct (hasOwn props "toString"); cbn; intros; simplify_eq; done.
Qed.

Lemma toString_no_stringForm {S} v (s : S) :
  stringForm v = None → toString v s = (Throw TypeError, s).
Proof.
  unfold stringForm.
  destruct v as [| |[]| | |props]; cbn;
    try destruct (hasOwn props "toString"); cbn; intros; simplify_eq; done.
Qed.

Lemma strictEq_true a s : strictEq a s = true ↔ a = Some s.
Proof.
  destruct a as [a|]; cbn; [|naive_solver].
  rewrite String.eqb_eq. naive_solver.
Qed.

Lemma strictEq_false a s : strictEq a s = false ↔ a ≠ Some s.
Proof. rewrite <- strictEq_true. destruct (strictEq a s); naive_solver. Qed.

Lemma attrTruthy_true a :
  attrTruthy a = true ↔ ∃ a', a = Some a' ∧ a' ≠ "".
Proof.
  destruct a as [a|]; cbn; [|naive_solver].
  rewrite negb_true_iff, String.eqb_neq. naive_solver.
Qed.

(** ** The node list of a selector *)

Lemma elem_of_selectFrom p i l j :
  j ∈ selectFrom p i l ↔ ∃ e, i ≤ j ∧ l !! (j - i) = Some e ∧ p e = true.
Proof.
  revert i. induction l as [|x l IH]; intros i; cbn.
  - split; [intros H; inversion H | intros (e & _ & H & _); done].
  - assert (Hrest : j ∈ selectFrom p (S i) l ↔
              ∃ e, i ≤ j ∧ (x :: l) !! (j - i) = Some e ∧ j ≠ i ∧ p e = true).
    { rewrite IH. split.
      - intros (e & Hle & Hl & Hp). exists e. repeat split; [lia| |lia|done].
        replace (j - i) with (S (j - S i)) by lia. done.
      - intros (e & Hle & Hl & Hne & Hp). exists e. repeat split; [lia| |done].
        replace (j - i) with (S (j - S i)) in Hl by lia. done. }
    destruct (p x) eqn:Hpx.
    + rewrite elem_of_cons, Hrest. split.
      * intros [->|(e & ? & ? & ? & ?)]; [|by eauto].
        exists x. rewrite Nat.sub_diag. done.
      * intros (e & Hle & Hl & Hp).
        destruct (decide (j = i)) as [->|]; [by left|]. right. eauto 6.
    + rewrite Hrest. split; [naive_solver|].
      intros (e & Hle & Hl & Hp). exists e. repeat split; try done.
      intros ->. rewrite Nat.sub_diag in Hl. cbn in Hl. congruence.
Qed.

(** ** What a synchronization computes *)

Lemma existsb_mainMatch str l :
  existsb (mainMatch str) l = true ↔
  ∃ m, m ∈ l ∧ inMain m = true ∧ dataVariantId m = Some str.
Proof.
  rewrite existsb_exists. unfold mainMatch.
  setoid_rewrite andb_true_iff. setoid_rewrite strictEq_true.
  setoid_rewrite <- list_elem_of_In. naive_solver.
Qed.

Lemma scan_from v str w pre l acc :
  stringForm v = Some str →
  slides w = pre ++ l →
  forEachAcc (selectFrom inMain (length pre) l)
    (λ slide variantData,
       slideVariantId ← getAttribute slide;
       s ← toString v;
       if strictEq slideVariantId s
       then mret (Some (mkVariantData v true))
       else mret variantData) acc w
  = (Normal (if existsb (mainMatch str) l
             then Some (mkVariantData v true) else acc), w).
Proof.
  intros Hstr. revert pre acc.
  induction l as [|e l IH]; intros pre acc Hw; [done|].
  assert (Hw' : slides w = (pre ++ [e]) ++ l) by (by rewrite <- app_assoc).
  specialize (IH (pre ++ [e])). rewrite length_app in IH. cbn in IH.
  rewrite Nat.add_1_r in IH.
  cbn [selectFrom existsb]. unfold mainMatch at 1.
  destruct (inMain e) eqn:Hmain; cbn [andb orb]; [|by apply IH].
  cbn [forEachAcc].
  assert (Hattr : getAttribute (length pre) w = (Normal (dataVariantId e), w)).
  { unfold getAttribute. rewrite Hw, list_lookup_middle by done. done. }
  rewrite (bind_normal _ _ w
             (if strictEq (dataVariantId e) str
              then Some (mkVariantData v true) else acc) w); last first.
  { erewrite bind_normal by exact Hattr.
    erewrite bind_normal by (by apply toString_stringForm).
    destruct (strictEq (dataVariantId e) str); reflexivity. }
  rewrite IH by done.
  destruct (strictEq (dataVariantId e) str); cbn [orb]; [|done].
  by destruct (existsb (mainMatch str) l).
Qed.

Lemma scanMainSlides_spec v str w :
  stringForm v = Some str →
  scanMainSlides v w
  = (Normal (if existsb (mainMatch str) (slides w)
             then Some (mkVariantData v true) else None), w).
Proof.
  intros Hstr. unfold scanMainSlides.
  erewrite bind_normal by reflexivity.
  by apply (scan_from v str w []).
Qed.

Lemma alter_middle {A} (f : A → A) (pre : list A) x rest :
  alter f (length pre) (pre ++ x :: rest) = pre ++ f x :: rest.
Proof.
  rewrite <- (Nat.add_0_r (length pre)). by rewrite alter_app_r.
Qed.

Lemma showOrHide_at v str w pre e rest :
  stringForm v = Some str →
  slides w = pre ++ e :: rest →
  inThumbs e = true →
  showOrHide v (length pre) w
  = (Normal tt, withSlides (pre ++ syncSlide str e :: rest) w).
Proof.
  intros Hstr Hw He. unfold showOrHide, syncSlide. rewrite He.
  assert (Hattr : getAttribute (length pre) w = (Normal (dataVariantId e), w)).
  { unfold getAttribute. rewrite Hw, list_lookup_middle by done. done. }
  erewrite bind_normal by exact Hattr.
  erewrite bind_normal by (by apply toString_stringForm).
  destruct (strictEq (dataVariantId e) str).
  - unfold assignDisplay, assignVisibility, shown. eff_unfold. cbn.
    rewrite Hw, !alter_middle. done.
  - destruct (attrTruthy (dataVariantId e)).
    + unfold assignDisplay. eff_unfold. cbn. rewrite Hw, alter_middle. done.
    + eff_unfold. destruct w; cbn in *. by rewrite Hw.
Qed.

Lemma thumbs_from v str l : ∀ w pre,
  stringForm v = Some str →
  slides w = pre ++ l →
  forEach (selectFrom inThumbs (length pre) l) (showOrHide v) w
  = (Normal tt, withSlides (pre ++ map (syncSlide str) l) w).
Proof.
  induction l as [|e l IH]; intros w pre Hstr Hw.
  - cbn. eff_unfold. destruct w; cbn in *. by rewrite Hw.
  - cbn [selectFrom map].
    set (w1 := withSlides (pre ++ syncSlide str e :: l) w).
    assert (Hw1 : slides w1 = (pre ++ [syncSlide str e]) ++ l)
      by (by rewrite <- app_assoc).
    specialize (IH w1 (pre ++ [syncSlide str e]) Hstr Hw1).
    rewrite length_app in IH. cbn in IH. rewrite Nat.add_1_r in IH.
    rewrite <- app_assoc in IH. cbn in IH.
    destruct (inThumbs e) eqn:He.
    + cbn [forEach].
      erewrite bind_normal by (by eapply showOrHide_at).
      exact IH.
    + assert (Hid : syncSlide str e = e) by (unfold syncSlide; by rewrite He).
      assert (Hsame : w1 = w).
      { subst w1. rewrite Hid, <- Hw. by destruct w. }
      rewrite Hsame, Hid in IH. by rewrite Hid.
Qed.

Lemma updateMediaForVariant_spec v str w :
  stringForm v = Some str →
  updateMediaForVariant v w = (Normal tt, synced str w).
Proof.
  intros Hstr. unfold updateMediaForVariant, synced.
  erewrite bind_normal by (by apply scanMainSlides_spec).
  destruct (existsb (mainMatch str) (slides w)); cbn [lacksMedia]; [|done].
  cbn [hasMetafieldImages negb].
  erewrite bind_normal by reflexivity.
  erewrite bind_normal by (by apply (thumbs_from v str (slides w) w [])).
  reflexivity.
Qed.

(** Without a string form the first [toString] throws, and the scan only
    gets that far when there is a main slide to look at. *)
Lemma scanMainSlides_no_stringForm v w :
  stringForm v = None →
  scanMainSlides v w
  = (if existsb inMain (slides w) then Throw TypeError else Normal None, w).
Proof.
  intros Hstr. unfold scanMainSlides.
  erewrite bind_normal by reflexivity.
  generalize (@None VariantData) as acc.
  assert (Hw : slides w = [] ++ slides w) by done. revert Hw.
  change 0 with (length (@nil Slide)).
  generalize (@nil Slide) as pre. generalize (slides w) at 2 3 4 as l.
  induction l as [|e l IH]; intros pre Hw acc; [done|].
  assert (Hw' : slides w = (pre ++ [e]) ++ l) by (by rewrite <- app_assoc).
  specialize (IH (pre ++ [e]) Hw'). rewrite length_app in IH. cbn in IH.
  rewrite Nat.add_1_r in IH.
  cbn [selectFrom existsb].
  destruct (inMain e); cbn [orb]; [|by apply IH].
  cbn [forEachAcc].
  erewrite bind_throw; [done|].
  erewrite bind_normal by reflexivity.
  erewrite bind_throw; [done|]. by apply toString_no_stringForm.
Qed.

Lemma updateMediaForVariant_no_stringForm v w :
  stringForm v = None →
  updateMediaForVariant v w
  = (if existsb inMain (slides w) then Throw TypeError else Normal tt, w).
Proof.
  intros Hstr. unfold updateMediaForVariant.
  pose proof (scanMainSlides_no_stringForm v w Hstr) as Hscan.
  destruct (existsb inMain (slides w)).
  - erewrite bind_throw; done.
  - erewrite bind_normal by exact Hscan. done.
Qed.

Lemma lookup_synced str w i :
  existsb (mainMatch str) (slides w) = true →
  slides (synced str w) !! i = syncSlide str <$> slides w !! i.
Proof.
  intros H. unfold synced. rewrite H. cbn. apply list_lookup_fmap.
Qed.

(** ** Synchronization: the claims about one run *)

(** C1.  When [updateMediaForVariant] runs for an identifier whose string
    form is carried by at least one main-gallery slide, it completes
    normally, and every thumbnail slide ends up as follows: with the same
    attribute as the identifier's string form, display is [''] and
    visibility is ['visible']; with another, non-empty attribute, display is
    ['none']; with no attribute, the slide is exactly as before. *)
Theorem match_and_show (w : World) (v : Value) (str : string) :
  stringForm v = Some str →
  (∃ m, m ∈ slides w ∧ inMain m = true ∧ dataVariantId m = Some str) →
  ∃ w', updateMediaForVariant v w = (Normal tt, w') ∧
    ∀ i e, slides w !! i = Some e → inThumbs e = true →
      ∃ e', slides w' !! i = Some e' ∧
        (dataVariantId e = Some str →
           styleDisplay e' = "" ∧ styleVisibility e' = "visible") ∧
        (∀ a, dataVariantId e = Some a → a ≠ str → a ≠ "" →
           styleDisplay e' = "none") ∧
        (dataVariantId e = None → e' = e).
Proof.
  intros Hstr Hmatch. apply existsb_mainMatch in Hmatch.
  exists (synced str w). split; [by apply updateMediaForVariant_spec|].
  intros i e Hi Hthumb. exists (syncSlide str e). split.
  { rewrite lookup_synced, Hi by done. done. }
  unfold syncSlide. rewrite Hthumb. split; [|split].
  - intros Ha. apply strictEq_true in Ha. by rewrite Ha.
  - intros a Ha Hne Hnempty.
    assert (H1 : strictEq (dataVariantId e) str = false)
      by (apply strictEq_false; congruence).
    assert (H2 : attrTruthy (dataVariantId e) = true)
      by (apply attrTruthy_true; eauto).
    by rewrite H1, H2.
  - intros Ha. by rewrite Ha.
Qed.

Lemma match_and_show_witness :
  ∃ w', updateMediaForVariant (VInt 1) pageAB = (Normal tt, w') ∧
    ∀ i e, slides pageAB !! i = Some e → inThumbs e = true →
      ∃ e', slides w' !! i = Some e' ∧
        (dataVariantId e = Some "1" →
           styleDisplay e' = "" ∧ styleVisibility e' = "visible") ∧
        (∀ a, dataVariantId e = Some a → a ≠ "1" → a ≠ "" →
           styleDisplay e' = "none") ∧
        (dataVariantId e = None → e' = e).
Proof.
  apply (match_and_show pageAB (VInt 1) "1").
  - reflexivity.
  - exists (mkSlide true false (Some "1") "" "").
    split; [constructor | split; reflexivity].
Defined.

(** C5.  When [updateMediaForVariant] runs for an identifier whose string
    form is carried by no main-gallery slide, it returns with the page
    exactly as it was: slides and their styles, both sliders, the frame
    queue and the record of dispatched notifications are all unchanged. *)
Theorem no_match_abort (w : World) (v : Value) (str : string) :
  stringForm v = Some str →
  (∀ m, m ∈ slides w → inMain m = true → dataVariantId m ≠ Some str) →
  updateMediaForVariant v w = (Normal tt, w).
Proof.
  intros Hstr Hnone. rewrite (updateMediaForVariant_spec v str) by done.
  unfold synced.
  destruct (existsb (mainMatch str) (slides w)) eqn:Hex; [|done].
  apply existsb_mainMatch in Hex as (m & Hm & Hmain & Hattr).
  by destruct (Hnone m Hm Hmain).
Qed.

Lemma no_match_abort_witness :
  updateMediaForVariant (VStr "7") pageAB = (Normal tt, pageAB).
Proof.
  apply (no_match_abort pageAB (VStr "7") "7"); [reflexivity|].
  intros m Hm Hmain Hattr. unfold pageAB, init, galleryAB in Hm. cbn in Hm.
  repeat (apply elem_of_cons in Hm as [->|Hm]; [by inversion Hattr|]).
  inversion Hm.
Defined.

(** C7.  For an identifier with a string form, the scan of the main slides
    completes without touching the page, and the imagery flag it derives is
    true exactly when some main-gallery slide carries the identifier's string
    form; a [variantData] that was assigned always has the flag true.
    [updateMediaForVariant] takes the early return of step 2, leaving the
    page as it was, exactly when no main slide matches; when one matches it
    goes on and ends by requesting a frame for the slider refresh. *)
Theorem media_availability (w : World) (v : Value) (str : string) :
  stringForm v = Some str →
  ∃ variantData,
    scanMainSlides v w = (Normal variantData, w) ∧
    (variantData = Some (mkVariantData v true) ↔
       ∃ m, m ∈ slides w ∧ inMain m = true ∧ dataVariantId m = Some str) ∧
    (∀ d, variantData = Some d → hasMetafieldImages d = true) ∧
    (lacksMedia variantData = true ↔
       ¬ ∃ m, m ∈ slides w ∧ inMain m = true ∧ dataVariantId m = Some str) ∧
    (updateMediaForVariant v w = (Normal tt, w) ↔
       ¬ ∃ m, m ∈ slides w ∧ inMain m = true ∧ dataVariantId m = Some str) ∧
    ((∃ m, m ∈ slides w ∧ inMain m = true ∧ dataVariantId m = Some str) →
       ∃ w', updateMediaForVariant v w = (Normal tt, w') ∧
             rafQueue w' = rafQueue w ++ [RefreshSliders]).
Proof.
  intros Hstr. eexists. split; [by apply scanMainSlides_spec|].
  rewrite <- existsb_mainMatch.
  rewrite (updateMediaForVariant_spec v str) by done. unfold synced.
  destruct (existsb (mainMatch str) (slides w)); cbn.
  - split; [done|]. split; [naive_solver|]. split; [naive_solver|]. split.
    + split; [|done]. intros Heq. exfalso.
      apply (f_equal (λ r, length (rafQueue r.2))) in Heq. cbn in Heq.
      rewrite length_app in Heq. cbn in Heq. lia.
    + intros _. eexists. split; reflexivity.
  - split; [naive_solver|]. split; [naive_solver|]. split; [naive_solver|].
    split; [naive_solver | discriminate].
Qed.

Lemma media_availability_witness :
  ∃ variantData,
    scanMainSlides (VInt 2) pageAB = (Normal variantData, pageAB) ∧
    (variantData = Some (mkVariantData (VInt 2) true) ↔
       ∃ m, m ∈ slides pageAB ∧ inMain m = true ∧ dataVariantId m = Some "2") ∧
    (∀ d, variantData = Some d → hasMetafieldImages d = true) ∧
    (lacksMedia variantData = true ↔
       ¬ ∃ m, m ∈ slides pageAB ∧ inMain m = true ∧ dataVariantId m = Some "2") ∧
    (updateMediaForVariant (VInt 2) pageAB = (Normal tt, pageAB) ↔
       ¬ ∃ m, m ∈ slides pageAB ∧ inMain m = true ∧ dataVariantId m = Some "2") ∧
    ((∃ m, m ∈ slides pageAB ∧ inMain m = true ∧ dataVariantId m = Some "2") →
       ∃ w', updateMediaForVariant (VInt 2) pageAB = (Normal tt, w') ∧
             rafQueue w' = rafQueue pageAB ++ [RefreshSliders]).
Proof. apply (media_availability pageAB (VInt 2) "2"). reflexivity. Defined.

Lemma syncSlide_inMain str e : inMain (syncSlide str e) = inMain e.
Proof.
  unfold syncSlide. by repeat case_match.
Qed.

Lemma syncSlide_inThumbs str e : inThumbs (syncSlide str e) = inThumbs e.
Proof.
  unfold syncSlide. by repeat case_match.
Qed.

Lemma syncSlide_dataVariantId str e :
  dataVariantId (syncSlide str e) = dataVariantId e.
Proof.
  unfold syncSlide. by repeat case_match.
Qed.

Lemma mainMatch_syncSlide str str' e :
  mainMatch str (syncSlide str' e) = mainMatch str e.
Proof.
  unfold mainMatch. by rewrite syncSlide_inMain, syncSlide_dataVariantId.
Qed.

Lemma existsb_mainMatch_synced str str' w :
  existsb (mainMatch str) (slides (synced str' w))
  = existsb (mainMatch str) (slides w).
Proof.
  unfold synced. destruct (existsb (mainMatch str') (slides w)); [|done].
  cbn. induction (slides w) as [|e l IH]; [done|].
  cbn. by rewrite mainMatch_syncSlide, IH.
Qed.

Lemma exec_updateMediaForVariant v w :
  exec (updateMediaForVariant v) w
  = match stringForm v with
    | Some str => synced str w
    | None => w
    end.
Proof.
  unfold exec. destruct (stringForm v) as [str|] eqn:Hstr.
  - by rewrite (updateMediaForVariant_spec v str).
  - by rewrite updateMediaForVariant_no_stringForm.
Qed.

(** The slides outside the thumbnail gallery are never written. *)
Lemma syncSlide_outside str e : inThumbs e = false → syncSlide str e = e.
Proof. intros H. unfold syncSlide. by rewrite H. Qed.

Lemma synced_outside str w i e :
  slides w !! i = Some e → inThumbs e = false →
  slides (synced str w) !! i = Some e.
Proof.
  intros Hi He. unfold synced.
  destruct (existsb (mainMatch str) (slides w)); [|done].
  cbn. rewrite list_lookup_fmap, Hi. cbn. by rewrite syncSlide_outside.
Qed.

(** C10, as the code has it.  (1) A run that hides a thumbnail slide
    (non-empty attribute different from the identifier's string form) sets
    its display to ['none'] and leaves its visibility, its attribute and its
    gallery membership as they were.  (2) Hence a thumbnail shown by a run
    for one variant and hidden by a later run for another has display
    ['none'] and still visibility ['visible'].  (3) A main-gallery slide
    that the thumbnail selector does not match as well is left exactly as it
    was by every run, whatever the identifier. *)
Theorem hiding_writes_display_only :
  (∀ w v str i e a,
     stringForm v = Some str →
     (∃ m, m ∈ slides w ∧ inMain m = true ∧ dataVariantId m = Some str) →
     slides w !! i = Some e → inThumbs e = true →
     dataVariantId e = Some a → a ≠ str → a ≠ "" →
     ∃ e', slides (exec (updateMediaForVariant v) w) !! i = Some e' ∧
       styleDisplay e' = "none" ∧
       styleVisibility e' = styleVisibility e ∧
       dataVariantId e' = dataVariantId e ∧
       inMain e' = inMain e ∧ inThumbs e' = inThumbs e) ∧
  (∀ w v1 v2 s1 s2 i e,
     stringForm v1 = Some s1 → stringForm v2 = Some s2 →
     s1 ≠ s2 → s1 ≠ "" →
     (∃ m, m ∈ slides w ∧ inMain m = true ∧ dataVariantId m = Some s1) →
     (∃ m, m ∈ slides w ∧ inMain m = true ∧ dataVariantId m = Some s2) →
     slides w !! i = Some e → inThumbs e = true →
     dataVariantId e = Some s1 →
     ∃ e',
       slides (exec (updateMediaForVariant v2)
                 (exec (updateMediaForVariant v1) w)) !! i = Some e' ∧
       styleDisplay e' = "none" ∧ styleVisibility e' = "visible") ∧
  (∀ w v i e,
     slides w !! i = Some e → inMain e = true → inThumbs e = false →
     slides (exec (updateMediaForVariant v) w) !! i = Some e).
Proof.
  split; [|split].
  - intros w v str i e a Hstr Hmatch Hi Hthumb Ha Hne Hnempty.
    apply existsb_mainMatch in Hmatch.
    rewrite exec_updateMediaForVariant, Hstr, lookup_synced, Hi by done.
    cbn. eexists. split; [done|].
    unfold syncSlide. rewrite Hthumb.
    assert (H1 : strictEq (dataVariantId e) str = false)
      by (apply strictEq_false; congruence).
    assert (H2 : attrTruthy (dataVariantId e) = true)
      by (apply attrTruthy_true; eauto).
    by rewrite H1, H2.
  - intros w v1 v2 s1 s2 i e Hs1 Hs2 Hne Hnempty Hm1 Hm2 Hi Hthumb Ha.
    apply existsb_mainMatch in Hm1, Hm2.
    rewrite !exec_updateMediaForVariant, Hs1, Hs2.
    rewrite lookup_synced by (by rewrite existsb_mainMatch_synced).
    rewrite lookup_synced, Hi by done.
    exists (syncSlide s2 (syncSlide s1 e)). split; [done|].
    assert (H1 : strictEq (dataVariantId e) s1 = true)
      by (by apply strictEq_true).
    assert (H2 : strictEq (dataVariantId e) s2 = false)
      by (apply strictEq_false; congruence).
    assert (H3 : attrTruthy (dataVariantId e) = true)
      by (apply attrTruthy_true; eauto).
    assert (Hshown : syncSlide s1 e = shown e)
      by (unfold syncSlide; by rewrite Hthumb, H1).
    rewrite Hshown. unfold syncSlide, shown. cbn. by rewrite Hthumb, H2, H3.
  - intros w v i e Hi _ Hthumb. rewrite exec_updateMediaForVariant.
    destruct (stringForm v); [by apply synced_outside | done].
Qed.

Lemma hiding_writes_display_only_witness :
  (∃ e', slides (exec (updateMediaForVariant (VInt 1)) pageAB) !! 3 = Some e' ∧
     styleDisplay e' = "none" ∧ styleVisibility e' = "visible" ∧
     dataVariantId e' = Some "2" ∧ inMain e' = false ∧ inThumbs e' = true) ∧
  (∃ e', slides (exec (updateMediaForVariant (VInt 2))
                   (exec (updateMediaForVariant (VInt 1)) pageAB)) !! 2
         = Some e' ∧
     styleDisplay e' = "none" ∧ styleVisibility e' = "visible") ∧
  slides (exec (updateMediaForVariant (VInt 1)) pageAB) !! 0
  = Some (mkSlide true false (Some "1") "" "").
Proof.
  destruct hiding_writes_display_only as (Hhide & Hlater & Hmain).
  split; [|split].
  - apply (Hhide pageAB (VInt 1) "1" 3
             (mkSlide false true (Some "2") "" "visible") "2");
      try reflexivity; try discriminate.
    exists (mkSlide true false (Some "1") "" "").
    split; [constructor | split; reflexivity].
  - apply (Hlater pageAB (VInt 1) (VInt 2) "1" "2" 2
             (mkSlide false true (Some "1") "none" "hidden"));
      try reflexivity; try discriminate.
    + exists (mkSlide true false (Some "1") "" "").
      split; [constructor | split; reflexivity].
    + exists (mkSlide true false (Some "2") "" "").
      split; [do 2 constructor | split; reflexivity].
  - apply (Hmain pageAB (VInt 1) 0); reflexivity.
Defined.

(** C10 as stated fails for a slide that both selectors match (a thumbnail
    container nested in the main container, say): it is a main-gallery
    slide, and the second loop hides it like any other thumbnail. *)
Lemma main_slide_matched_by_both_is_hidden :
  let both := mkSlide true true (Some "2") "" "" in
  let w := withSlides [mkSlide true false (Some "1") "" ""; both] pageAB in
  slides w !! 1 = Some both ∧ inMain both = true ∧
  slides (exec (updateMediaForVariant (VInt 1)) w) !! 1
  = Some (mkSlide true true (Some "2") "none" "") ∧
  styleDisplay both ≠ "none".
Proof. repeat split; discriminate. Qed.

(** ** Animation frames *)

Lemma frame_snoc q cb w :
  frame (withRafQueue (q ++ [cb]) w)
  = runTask (runRafCallback cb) (frame (withRafQueue q w)).
Proof. unfold frame. cbn. by rewrite foldl_snoc. Qed.

Lemma frame_idle w : rafQueue w = [] → frame w = w.
Proof. intros H. unfold frame. rewrite H. destruct w; cbn in *. by subst. Qed.

Lemma frames_idle n w : rafQueue w = [] → frames n w = w.
Proof.
  induction n as [|n IH]; intros H; [done|].
  cbn. rewrite frame_idle by done. by apply IH.
Qed.

Lemma runTask_refresh u :
  runTask (runRafCallback RefreshSliders) u
  = withRafQueue (rafQueue u ++ [AnnounceUpdated])
      (withTrace (trace u ++ refreshObs u)
         (withSwiperMain (refreshed <$> swiperMain u)
            (withSwiperThumbs (refreshed <$> swiperThumbs u) u))).
Proof.
  destruct u as [sl dt [st|] [sm|] c n ts q b dl tr];
    unfold refreshObs, runTask, runRafCallback, refreshThumbs, refreshMain,
      requestAnimationFrame, observe; eff_unfold; cbn;
    rewrite <- ?app_assoc, ?app_nil_r; done.
Qed.

Lemma runTask_announce u :
  runTask (runRafCallback AnnounceUpdated) u
  = withTrace (trace u ++ [ObsDispatch MEDIA_UPDATED]) u.
Proof. done. Qed.

Lemma dispatches_app_trace t w :
  dispatches (withTrace (trace w ++ t) w)
  = dispatches w + length (List.filter isDispatch t).
Proof. unfold dispatches. cbn. by rewrite List.filter_app, length_app. Qed.

Lemma refreshObs_no_dispatch u : List.filter isDispatch (refreshObs u) = [].
Proof. unfold refreshObs. by destruct (swiperThumbs u), (swiperMain u). Qed.

(** One frame, counted: every queued announcement is dispatched, every
    queued refresh queues one announcement for the next frame. *)
Lemma run_callbacks_count q : ∀ u,
  let r := foldl (λ w cb, runTask (runRafCallback cb) w) u q in
  dispatches r = dispatches u + countCallback AnnounceUpdated q ∧
  rafQueue r
  = rafQueue u ++ replicate (countCallback RefreshSliders q) AnnounceUpdated ∧
  ∃ t, trace r = trace u ++ t.
Proof.
  induction q as [|cb q IH]; intros u; cbn zeta.
  - cbn. rewrite app_nil_r. split; [lia|]. split; [done|].
    exists []. by rewrite app_nil_r.
  - cbn [foldl]. destruct (IH (runTask (runRafCallback cb) u)) as (Hd & Hq & t & Ht).
    rewrite Hd, Hq, Ht. clear IH Hd Hq Ht.
    destruct cb.
    + rewrite runTask_refresh. unfold countCallback. cbn.
      unfold dispatches. cbn.
      rewrite List.filter_app, refreshObs_no_dispatch, app_nil_r.
      rewrite <- !app_assoc. cbn. split; [lia|]. split; [done|]. eauto.
    + rewrite runTask_announce. unfold countCallback. cbn.
      unfold dispatches. cbn.
      rewrite List.filter_app, length_app. cbn.
      rewrite <- !app_assoc. split; [lia|]. split; [done|]. eauto.
Qed.

Lemma frame_count w :
  dispatches (frame w)
  = dispatches w + countCallback AnnounceUpdated (rafQueue w) ∧
  rafQueue (frame w)
  = replicate (countCallback RefreshSliders (rafQueue w)) AnnounceUpdated ∧
  ∃ t, trace (frame w) = trace w ++ t.
Proof. apply (run_callbacks_count (rafQueue w) (withRafQueue [] w)). Qed.

Lemma countCallback_replicate n :
  countCallback AnnounceUpdated (replicate n AnnounceUpdated) = n ∧
  countCallback RefreshSliders (replicate n AnnounceUpdated) = 0.
Proof.
  unfold countCallback. induction n as [|n [IH1 IH2]]; [done|].
  cbn. split; [by rewrite IH1 | done].
Qed.

Lemma countCallback_total q :
  countCallback AnnounceUpdated q + countCallback RefreshSliders q = length q.
Proof.
  unfold countCallback. induction q as [|[] q IH]; cbn; lia.
Qed.

(** After two frames everything queued before has been dispatched. *)
Lemma two_frames_count w :
  dispatches (frame (frame w)) = dispatches w + length (rafQueue w) ∧
  rafQueue (frame (frame w)) = [].
Proof.
  destruct (frame_count w) as (Hd1 & Hq1 & _).
  destruct (frame_count (frame w)) as (Hd2 & Hq2 & _).
  rewrite Hq1 in Hd2, Hq2.
  destruct (countCallback_replicate
              (countCallback RefreshSliders (rafQueue w))) as [Ha Hr].
  rewrite Ha in Hd2. rewrite Hr in Hq2.
  pose proof (countCallback_total (rafQueue w)). split; [lia | done].
Qed.

(** C6.  Take a run of [updateMediaForVariant] whose identifier matches a
    main slide, and compare with [base], the same state without the frame
    request of this run.  The run itself dispatches nothing and queues one
    refresh callback.  In the next frame, after the callbacks queued earlier,
    the sliders that are attached at that moment are asked to update and to
    go to slide 0 (thumbnails first), and nothing is dispatched for this run
    yet.  In the frame after that the ['product-media:updated'] notification
    is dispatched, as the last observable action of that frame.  From the
    second frame on the run has contributed exactly one dispatched
    notification. *)
Theorem completion_broadcast (w : World) (v : Value) (str : string) :
  stringForm v = Some str →
  (∃ m, m ∈ slides w ∧ inMain m = true ∧ dataVariantId m = Some str) →
  let w1 := exec (updateMediaForVariant v) w in
  let base := withRafQueue (rafQueue w) w1 in
  trace w1 = trace w ∧
  rafQueue w1 = rafQueue w ++ [RefreshSliders] ∧
  trace (frame w1) = trace (frame base) ++ refreshObs (frame base) ∧
  swiperThumbs (frame w1) = refreshed <$> swiperThumbs (frame base) ∧
  swiperMain (frame w1) = refreshed <$> swiperMain (frame base) ∧
  dispatches (frame w1) = dispatches (frame base) ∧
  (∃ earlier,
     trace (frame (frame w1))
     = trace (frame w1) ++ earlier ++ [ObsDispatch MEDIA_UPDATED]) ∧
  ∀ n, 2 ≤ n → dispatches (frames n w1) = S (dispatches (frames n base)).
Proof.
  intros Hstr Hmatch. apply existsb_mainMatch in Hmatch.
  rewrite exec_updateMediaForVariant, Hstr. unfold synced. rewrite Hmatch.
  set (x := withSlides (map (syncSlide str) (slides w)) w).
  set (w1 := withRafQueue (rafQueue w ++ [RefreshSliders]) x).
  cbn zeta.
  assert (Hbase : withRafQueue (rafQueue w) w1 = x) by (by destruct w).
  rewrite Hbase.
  assert (Hf1 : frame w1 = runTask (runRafCallback RefreshSliders) (frame x)).
  { subst w1. by rewrite frame_snoc. }
  rewrite runTask_refresh in Hf1.
  split; [done|]. split; [done|].
  rewrite Hf1. split; [done|]. split; [done|]. split; [done|].
  split.
  { unfold dispatches. cbn.
    by rewrite List.filter_app, refreshObs_no_dispatch, app_nil_r. }
  split.
  { rewrite frame_snoc, runTask_announce.
    match goal with
    | |- context [withTrace (trace (frame ?y) ++ _) _] =>
        destruct (frame_count y) as (_ & _ & t & Ht);
        change (trace (withTrace (trace (frame y) ++ [ObsDispatch MEDIA_UPDATED])
                         (frame y)))
          with (trace (frame y) ++ [ObsDispatch MEDIA_UPDATED]);
        rewrite Ht
    end.
    cbn. exists t. by rewrite <- !app_assoc. }
  intros n Hn. destruct n as [|[|k]]; [lia..|]. cbn [frames].
  destruct (two_frames_count w1) as [Hd1 Hq1].
  destruct (two_frames_count x) as [Hdx Hqx].
  rewrite !frames_idle by done. rewrite Hd1, Hdx.
  subst w1 x. unfold dispatches. cbn. rewrite length_app. cbn. lia.
Qed.

Lemma completion_broadcast_witness :
  let w1 := exec (updateMediaForVariant (VInt 1)) pageAB in
  let base := withRafQueue (rafQueue pageAB) w1 in
  trace w1 = trace pageAB ∧
  rafQueue w1 = rafQueue pageAB ++ [RefreshSliders] ∧
  trace (frame w1) = trace (frame base) ++ refreshObs (frame base) ∧
  swiperThumbs (frame w1) = refreshed <$> swiperThumbs (frame base) ∧
  swiperMain (frame w1) = refreshed <$> swiperMain (frame base) ∧
  dispatches (frame w1) = dispatches (frame base) ∧
  (∃ earlier,
     trace (frame (frame w1))
     = trace (frame w1) ++ earlier ++ [ObsDispatch MEDIA_UPDATED]) ∧
  ∀ n, 2 ≤ n → dispatches (frames n w1) = S (dispatches (frames n base)).
Proof.
  apply (completion_broadcast pageAB (VInt 1) "1").
  - reflexivity.
  - exists (mkSlide true false (Some "1") "" "").
    split; [constructor | split; reflexivity].
Defined.

Example completion_broadcast_run :
  trace (frames 2 (exec (updateMediaForVariant (VInt 1)) pageAB))
  = [ObsUpdate Thumbs; ObsSlideTo Thumbs 0; ObsUpdate Main; ObsSlideTo Main 0;
     ObsDispatch "product-media:updated"].
Proof. reflexivity. Qed.

(** ** Timers and the debounce invariant *)

Lemma syncs_app_trace t w w' :
  trace w' = trace w ++ t → syncs w' = syncs w ++ omap syncOf t.
Proof. intros H. unfold syncs. by rewrite H, omap_app. Qed.

Lemma handleVariantChange_run v w :
  handleVariantChange v w
  = (Normal tt,
     withDebounceTimer (Some (nextTimerId w))
       (withNextTimerId (S (nextTimerId w))
          (withTimers
             (enqueueTimer (mkTimer (nextTimerId w) (clock w + DEBOUNCE_DELAY) v)
                (if handleTruthy (debounceTimer w)
                 then List.filter (λ t, negb (tid t =? default 0 (debounceTimer w)))
                        (timers w)
                 else timers w))
             w))).
Proof.
  unfold handleVariantChange, setTimeout, clearTimeout. eff_unfold.
  by destruct (handleTruthy (debounceTimer w)).
Qed.

(** Under the invariant, clearing [this.debounceTimer] empties the table. *)
Lemma wf_cleared w :
  wf w →
  (if handleTruthy (debounceTimer w)
   then List.filter (λ t, negb (tid t =? default 0 (debounceTimer w)))
                        (timers w)
   else timers w) = [].
Proof.
  intros (_ & Hlen & Hdt).
  destruct (timers w) as [|t [|t' ts]] eqn:Hts; cbn in Hlen; [| |lia].
  - by destruct (handleTruthy _).
  - destruct (Hdt t) as [Hd Hpos]; [by left|].
    rewrite Hd. cbn. destruct (tid t) as [|n] eqn:Htid; [lia|]. cbn.
    by rewrite Nat.eqb_refl.
Qed.

(** A notification under the invariant: exactly one timeout is pending
    afterwards, due one debounce delay from now, for the new identifier. *)
Lemma handleVariantChange_wf v w :
  wf w →
  let w' := exec (handleVariantChange v) w in
  timers w' = [mkTimer (nextTimerId w) (clock w + DEBOUNCE_DELAY) v] ∧
  clock w' = clock w ∧ trace w' = trace w ∧ wf w'.
Proof.
  intros Hwf. pose proof Hwf as (Hnext & _ & _).
  unfold exec. rewrite handleVariantChange_run, wf_cleared by done. cbn.
  split; [done|]. split; [done|]. split; [done|].
  split; [cbn; lia|]. split; [cbn; lia|].
  intros t Ht. cbn in Ht. apply list_elem_of_singleton in Ht as ->. cbn.
  split; [done | lia].
Qed.

(** The timer callback touches neither timers nor subscriptions, and records
    the synchronization it starts. *)
Lemma timerCallback_run t w :
  let w' := runTask (timerCallback t) w in
  control w' = control w ∧
  (∃ tr, trace w' = trace w ++ ObsSync (arg t) :: tr ∧ omap syncOf tr = []
         ∧ omap handleOf tr = []).
Proof.
  unfold runTask, timerCallback, observe.
  set (w0 := withTrace (trace w ++ [ObsSync (arg t)]) w).
  assert (Hrun : (modify (λ w, withTrace (trace w ++ [ObsSync (arg t)]) w)
                  ≫= λ _, updateMediaForVariant (arg t)) w
                 = updateMediaForVariant (arg t) w0) by done.
  rewrite Hrun. clear Hrun.
  destruct (stringForm (arg t)) as [str|] eqn:Hstr.
  - rewrite (updateMediaForVariant_spec _ str) by done. unfold synced.
    destruct (existsb (mainMatch str) (slides w0)); cbn;
      (split; [done|]); exists []; done.
  - rewrite updateMediaForVariant_no_stringForm by done.
    destruct (existsb inMain (slides w0)); cbn; (split; [done|]).
    + exists [ObsUncaught TypeError]. by rewrite <- app_assoc.
    + exists []. done.
Qed.

Lemma control_frame w : control (frame w) = control w ∧ syncs (frame w) = syncs w
  ∧ handled (frame w) = handled w.
Proof.
  unfold frame.
  change (control w) with (control (withRafQueue [] w)).
  change (syncs w) with (syncs (withRafQueue [] w)).
  change (handled w) with (handled (withRafQueue [] w)).
  generalize (withRafQueue [] w) as u.
  induction (rafQueue w) as [|cb q IH]; intros u; [done|].
  cbn [foldl]. destruct (IH (runTask (runRafCallback cb) u)) as (-> & -> & ->).
  destruct cb.
  - rewrite runTask_refresh. unfold syncs, handled, refreshObs. cbn.
    rewrite !omap_app. destruct (swiperThumbs u), (swiperMain u); cbn;
      by rewrite !app_nil_r.
  - rewrite runTask_announce. unfold syncs, handled. cbn.
    rewrite !omap_app. cbn. by rewrite !app_nil_r.
Qed.

Lemma wf_same_timers w w' :
  nextTimerId w' = nextTimerId w → timers w' = timers w →
  debounceTimer w' = debounceTimer w → wf w → wf w'.
Proof. unfold wf. intros -> -> ->. done. Qed.

Lemma elapse_idle ms w :
  timers w = [] → elapse ms w = withClock (clock w + ms) w.
Proof. intros H. unfold elapse. rewrite H. cbn. destruct w; cbn in *. by subst. Qed.

Lemma elapse_pending ms w t :
  timers w = [t] → clock w + ms < due t →
  elapse ms w = withClock (clock w + ms) w.
Proof.
  intros H Hlt. unfold elapse, isDue. rewrite H. cbn.
  destruct (Nat.leb_spec (due t) (clock w + ms)); [lia|].
  cbn. destruct w; cbn in *. by subst.
Qed.

Lemma elapse_fires ms w t :
  timers w = [t] → due t ≤ clock w + ms →
  elapse ms w
  = withClock (clock w + ms) (runTask (timerCallback t) (withTimers [] w)).
Proof.
  intros H Hle. unfold elapse, isDue. rewrite H. cbn.
  destruct (Nat.leb_spec (due t) (clock w + ms)); [done | lia].
Qed.

Lemma run_cons e es w : run (e :: es) w = run es (step e w).
Proof. done. Qed.

(** Quiet events while nothing is pending start no synchronization. *)
Lemma quiet_idle es : ∀ w,
  forallb isQuiet es = true → timers w = [] →
  timers (run es w) = [] ∧ syncs (run es w) = syncs w.
Proof.
  induction es as [|e es IH]; intros w Hq Hts; [done|].
  cbn in Hq. apply andb_true_iff in Hq as [He Hq]. rewrite run_cons.
  destruct e; try discriminate; cbn [step].
  - rewrite elapse_idle by done.
    destruct (IH (withClock (clock w + ms) w) Hq Hts) as [-> ->]. done.
  - destruct (control_frame w) as (Hc & Hs & _).
    destruct (IH (frame w) Hq) as [-> ->]; [|done].
    unfold control in Hc. congruence.
Qed.

(** Quiet events shorter than the time left keep the timeout pending. *)
Lemma quiet_pending es : ∀ w t,
  forallb isQuiet es = true → timers w = [t] →
  clock w + elapsed es < due t →
  let w' := run es w in
  timers w' = [t] ∧ clock w' = clock w + elapsed es ∧ syncs w' = syncs w ∧
  debounceTimer w' = debounceTimer w ∧ nextTimerId w' = nextTimerId w.
Proof.
  induction es as [|e es IH]; intros w t Hq Hts Hlt; cbn zeta.
  { cbn. repeat split; (done || lia). }
  cbn in Hq. apply andb_true_iff in Hq as [He Hq]. rewrite run_cons.
  destruct e; try discriminate; cbn [step elapsed] in *.
  - rewrite (elapse_pending ms w t) by (done || lia).
    destruct (IH (withClock (clock w + ms) w) t Hq Hts) as (-> & -> & -> & -> & ->);
      [cbn; lia|]. cbn. repeat split; (done || lia).
  - destruct (control_frame w) as (Hc & Hs & _). unfold control in Hc.
    destruct (IH (frame w) t Hq) as (-> & -> & -> & -> & ->);
      [congruence | |].
    + replace (clock (frame w)) with (clock w) by congruence. done.
    + rewrite Hs. repeat split; congruence.
Qed.

(** Quiet events that reach the due time fire the timeout, once. *)
Lemma quiet_fires es : ∀ w t,
  forallb isQuiet es = true → timers w = [t] →
  clock w < due t → due t ≤ clock w + elapsed es →
  timers (run es w) = [] ∧ syncs (run es w) = syncs w ++ [arg t].
Proof.
  induction es as [|e es IH]; intros w t Hq Hts Hfut Hle.
  { cbn in Hle. lia. }
  cbn in Hq. apply andb_true_iff in Hq as [He Hq]. rewrite run_cons.
  destruct e; try discriminate; cbn [step elapsed] in *.
  - destruct (Nat.lt_ge_cases (clock w + ms) (due t)) as [Hlt|Hge].
    + rewrite (elapse_pending ms w t) by done.
      apply (IH (withClock (clock w + ms) w) t Hq Hts); cbn; lia.
    + rewrite (elapse_fires ms w t) by done.
      destruct (timerCallback_run t (withTimers [] w))
        as (Hc & tr & Htr & Hnone & _).
      set (w1 := runTask (timerCallback t) (withTimers [] w)) in *.
      assert (Hts1 : timers (withClock (clock w + ms) w1) = []).
      { unfold control in Hc. cbn in *. congruence. }
      destruct (quiet_idle es _ Hq Hts1) as [-> ->].
      split; [done|].
      rewrite (syncs_app_trace (ObsSync (arg t) :: tr) (withTimers [] w))
        by exact Htr.
      cbn. by rewrite Hnone.
  - destruct (control_frame w) as (Hc & Hs & _). unfold control in Hc.
    rewrite <- Hs. apply IH; [done | congruence | |].
    + replace (clock (frame w)) with (clock w) by congruence. done.
    + replace (clock (frame w)) with (clock w) by congruence. done.
Qed.

Lemma last_cons_default {A} (a d : A) l :
  List.last (a :: l) d = List.last l a.
Proof.
  revert a d. induction l as [|b l IH]; intros a d; [done|].
  change (List.last (a :: b :: l) d) with (List.last (b :: l) d).
  rewrite !IH. done.
Qed.

(** A burst that starts with one timeout pending ends with one pending, for
    the last identifier, due one delay after the last notification. *)
Lemma burst_pending rest : ∀ w h v,
  wf w →
  timers w = [mkTimer h (clock w + DEBOUNCE_DELAY) v] →
  forallb (λ n, forallb isQuiet n.1 && (elapsed n.1 <? DEBOUNCE_DELAY)) rest
  = true →
  let w' := burst rest w in
  (∃ h', timers w'
         = [mkTimer h' (clock w' + DEBOUNCE_DELAY) (List.last (map snd rest) v)]) ∧
  syncs w' = syncs w ∧ wf w'.
Proof.
  induction rest as [|[gap v'] rest IH]; intros w h v Hwf Hts Hgaps; cbn zeta.
  { cbn. eauto. }
  cbn [forallb fst] in Hgaps. apply andb_true_iff in Hgaps as [Hgap Hgaps].
  apply andb_true_iff in Hgap as [Hq Hshort]. apply Nat.ltb_lt in Hshort.
  cbn [burst map snd]. rewrite last_cons_default.
  destruct (quiet_pending gap w _ Hq Hts) as (Hts1 & Hc1 & Hs1 & Hd1 & Hn1);
    [cbn; lia|].
  assert (Hwf1 : wf (run gap w)).
  { apply (wf_same_timers w); [done | by rewrite Hts1, Hts | done | done]. }
  destruct (handleVariantChange_wf v' (run gap w) Hwf1)
    as (Hts2 & Hc2 & Htr2 & Hwf2).
  set (w2 := exec (handleVariantChange v') (run gap w)) in *.
  rewrite <- Hc2 in Hts2.
  destruct (IH w2 _ v' Hwf2 Hts2 Hgaps) as (Hpend & Hsyncs & Hwf3).
  split; [done|]. split; [|done].
  rewrite Hsyncs, <- Hs1. unfold syncs. by rewrite Htr2.
Qed.

(** ** Listeners *)

Lemma getProp_truthy {S} v k (s : S) :
  truthy v = true → getProp v k s = (Normal (ownProp (propsOf v) k), s).
Proof. by destruct v. Qed.

(** What a listener does with its payload. *)
Lemma onVariantChange_run data w :
  onVariantChange data w
  = if passesGuard data
    then handleVariantChange (payloadId data)
           (withTrace (trace w ++ [ObsHandle (payloadId data)]) w)
    else (Normal tt, w).
Proof.
  unfold onVariantChange, passesGuard, payloadId, js_and.
  destruct (truthy data) eqn:Hd; cbn [andb].
  - erewrite bind_normal by (by apply getProp_truthy).
    destruct (truthy (ownProp (propsOf data) "variant")) eqn:Hv; [|done].
    erewrite bind_normal by (by apply getProp_truthy).
    erewrite bind_normal by (by apply getProp_truthy).
    done.
  - erewrite bind_normal by reflexivity. by rewrite Hd.
Qed.

Lemma runTask_onVariantChange data w :
  runTask (onVariantChange data) w = received data w.
Proof.
  unfold runTask, received. rewrite onVariantChange_run.
  destruct (passesGuard data); [|done].
  unfold exec. by rewrite handleVariantChange_run.
Qed.

(** Delivery on either channel, listener by listener. *)
Lemma deliver_bus ls data w :
  deliver runBusHandler ls data w = foldl (λ w _, received data w) w ls.
Proof.
  revert w. unfold deliver. induction ls as [|l ls IH]; intros w; [done|].
  cbn [foldl]. rewrite <- IH. f_equal. apply runTask_onVariantChange.
Qed.

Lemma deliver_doc ls data w :
  deliver runDocHandler ls (customEvent data) w
  = foldl (λ w _, received data w) w ls.
Proof.
  revert w. unfold deliver. induction ls as [|l ls IH]; intros w; [done|].
  cbn [foldl]. rewrite <- IH. f_equal.
  rewrite <- runTask_onVariantChange. unfold runTask, runDocHandler.
  by erewrite bind_normal by reflexivity.
Qed.

(** ** The invariant holds on every reachable page *)

Lemma wf_init dom bus thumbs main : wf (init dom bus thumbs main).
Proof.
  unfold wf, init. cbn. split; [lia|]. split; [lia|].
  intros t Ht. inversion Ht.
Qed.

Lemma wf_no_timers w : 0 < nextTimerId w → timers w = [] → wf w.
Proof.
  intros Hn Hts. unfold wf. rewrite Hts. split; [done|]. split; [cbn; lia|].
  intros t Ht. inversion Ht.
Qed.

Lemma wf_received data w : wf w → wf (received data w).
Proof.
  intros Hwf. unfold received. destruct (passesGuard data); [|done].
  apply handleVariantChange_wf. by apply (wf_same_timers w).
Qed.

Lemma wf_foldl_received {L} data (ls : list L) w :
  wf w → wf (foldl (λ w _, received data w) w ls).
Proof.
  revert w. induction ls as [|l ls IH]; intros w Hwf; [done|].
  cbn [foldl]. apply IH. by apply wf_received.
Qed.

Lemma connectedCallback_run w :
  runTask connectedCallback w
  = withDocListeners (docListeners w ++ [DocListener])
      (withEventBus ((λ hs, hs ++ [BusListener]) <$> eventBus w) w).
Proof.
  unfold runTask, connectedCallback. eff_unfold.
  destruct w as [sl dt st sm c n ts q [hs|] dl tr]; done.
Qed.

(** Detaching removes the pending timeout, if there is one, and changes
    nothing else. *)
Lemma disconnectedCallback_run w :
  runTask disconnectedCallback w
  = withTimers
      (if handleTruthy (debounceTimer w)
       then List.filter (λ t, negb (tid t =? default 0 (debounceTimer w)))
              (timers w)
       else timers w) w.
Proof.
  unfold runTask, disconnectedCallback, clearTimeout. eff_unfold.
  destruct (handleTruthy (debounceTimer w)); [done|]. by destruct w.
Qed.

Lemma wf_step e w : wf w → wf (step e w).
Proof.
  intros Hwf. pose proof Hwf as (Hnext & Hlen & Hdt).
  destruct e as [| |data|detail|ms|]; cbn [step].
  - rewrite connectedCallback_run. by apply (wf_same_timers w).
  - rewrite disconnectedCallback_run, wf_cleared by done.
    by apply wf_no_timers.
  - destruct (eventBus w) as [hs|]; [|done].
    rewrite deliver_bus. by apply wf_foldl_received.
  - rewrite deliver_doc. by apply wf_foldl_received.
  - destruct (timers w) as [|t [|t' ts]] eqn:Hts; cbn in Hlen; [| |lia].
    + rewrite elapse_idle by done. by apply (wf_same_timers w).
    + destruct (Nat.lt_ge_cases (clock w + ms) (due t)) as [Hlt|Hge].
      * rewrite (elapse_pending ms w t) by done. by apply (wf_same_timers w).
      * rewrite (elapse_fires ms w t) by done.
        destruct (timerCallback_run t (withTimers [] w)) as (Hc & _).
        unfold control in Hc. cbn in Hc.
        apply wf_no_timers; cbn; congruence.
  - destruct (control_frame w) as (Hc & _). unfold control in Hc.
    apply (wf_same_timers w); congruence.
Qed.

Lemma wf_run es : ∀ w, wf w → wf (run es w).
Proof.
  induction es as [|e es IH]; intros w Hwf; [done|].
  rewrite run_cons. apply IH. by apply wf_step.
Qed.

(** ** Debouncing *)

(** C2.  Take a page that satisfies the debounce invariant (every reachable
    page does) and a burst of notifications [v1], then [rest]: before each
    further notification only time and frames pass, less than the debounce
    delay in total.  After the burst exactly one timeout is pending, for the
    last identifier, due [DEBOUNCE_DELAY] after the last notification; no
    synchronization has started during the burst; and in any quiet
    continuation the only synchronization that starts is the one for the
    last identifier, once the delay has passed. *)
Theorem debounce_collapsing (w : World) (v1 : Value)
    (rest : list (list Event * Value)) (after : list Event) :
  wf w →
  forallb (λ n, forallb isQuiet n.1 && (elapsed n.1 <? DEBOUNCE_DELAY)) rest
  = true →
  forallb isQuiet after = true →
  let vN := List.last (map snd rest) v1 in
  let w' := burst (([], v1) :: rest) w in
  (∃ h, timers w' = [mkTimer h (clock w' + DEBOUNCE_DELAY) vN]) ∧
  syncs w' = syncs w ∧
  syncs (run after w')
  = syncs w ++ (if DEBOUNCE_DELAY <=? elapsed after then [vN] else []).
Proof.
  intros Hwf Hgaps Hafter. cbn zeta. cbn [burst]. change (run [] w) with w.
  destruct (handleVariantChange_wf v1 w Hwf) as (Hts1 & Hc1 & Htr1 & Hwf1).
  set (w1 := exec (handleVariantChange v1) w) in *.
  rewrite <- Hc1 in Hts1.
  destruct (burst_pending rest w1 _ v1 Hwf1 Hts1 Hgaps)
    as ([h Hts] & Hsyncs & Hwf').
  set (w' := burst rest w1) in *.
  assert (Hsame : syncs w' = syncs w).
  { rewrite Hsyncs. unfold syncs. by rewrite Htr1. }
  split; [eauto|]. split; [done|].
  destruct (Nat.leb_spec DEBOUNCE_DELAY (elapsed after)) as [Hle|Hlt].
  - destruct (quiet_fires after w' _ Hafter Hts) as [_ ->].
    { cbn [due]. unfold DEBOUNCE_DELAY. lia. }
    { cbn [due]. lia. }
    by rewrite Hsame.
  - destruct (quiet_pending after w' _ Hafter Hts) as (_ & _ & -> & _);
      [cbn [due]; lia|]. by rewrite Hsame, app_nil_r.
Qed.

Lemma debounce_collapsing_witness :
  let rest := [([Elapse 40; Frame], VInt 2); ([Elapse 99], VInt 3)] in
  let after := [Elapse 60; Frame; Elapse 40; Elapse 500] in
  let w' := burst (([], VInt 1) :: rest) pageAB in
  (∃ h, timers w' = [mkTimer h (clock w' + DEBOUNCE_DELAY) (VInt 3)]) ∧
  syncs w' = syncs pageAB ∧
  syncs (run after w') = syncs pageAB ++ [VInt 3].
Proof.
  apply (debounce_collapsing pageAB (VInt 1)
           [([Elapse 40; Frame], VInt 2); ([Elapse 99], VInt 3)]
           [Elapse 60; Frame; Elapse 40; Elapse 500]).
  - apply wf_init.
  - reflexivity.
  - reflexivity.
Defined.

Example debounce_collapsing_run :
  trace (run [Attach; DocDispatch (VObj [("variant", VObj [("id", VInt 1)])]);
              Elapse 40; BusEmit (VObj [("variant", VObj [("id", VInt 2)])]);
              Elapse 99; DocDispatch (VObj [("variant", VObj [("id", VInt 3)])]);
              Elapse 100; Frame; Frame] pageAB)
  = [ObsHandle (VInt 1); ObsHandle (VInt 2); ObsHandle (VInt 3);
     ObsSync (VInt 3)].
Proof. reflexivity. Qed.

(** ** Detaching *)

Lemma received_ignored data w : passesGuard data = false → received data w = w.
Proof. intros H. unfold received. by rewrite H. Qed.

Lemma foldl_received_ignored {L} data (ls : list L) w :
  passesGuard data = false → foldl (λ w _, received data w) w ls = w.
Proof.
  intros H. induction ls as [|l ls IH]; [done|].
  cbn [foldl]. by rewrite received_ignored.
Qed.

(** A notification without [data] or without [data.variant] changes nothing,
    on either channel. *)
Lemma payload_without_variant_ignored data w :
  passesGuard data = false →
  step (BusEmit data) w = w ∧ step (DocDispatch data) w = w.
Proof.
  intros H. cbn [step]. split.
  - destruct (eventBus w); [|done].
    by rewrite deliver_bus, foldl_received_ignored.
  - by rewrite deliver_doc, foldl_received_ignored.
Qed.

(** While nothing is pending, inert events start no synchronization. *)
Lemma inert_idle es : ∀ w,
  forallb isInert es = true → timers w = [] →
  timers (run es w) = [] ∧ syncs (run es w) = syncs w.
Proof.
  induction es as [|e es IH]; intros w Hin Hts; [done|].
  cbn [forallb] in Hin. apply andb_true_iff in Hin as [He Hin].
  rewrite run_cons.
  assert (Hstep : timers (step e w) = [] ∧ syncs (step e w) = syncs w).
  { destruct e as [| |data|detail|ms|]; cbn [isInert] in He.
    - cbn [step]. by rewrite connectedCallback_run.
    - cbn [step]. rewrite disconnectedCallback_run, Hts. cbn.
      by destruct (handleTruthy (debounceTimer w)).
    - apply negb_true_iff in He.
      by rewrite (proj1 (payload_without_variant_ignored data w He)).
    - apply negb_true_iff in He.
      by rewrite (proj2 (payload_without_variant_ignored detail w He)).
    - cbn [step]. by rewrite elapse_idle.
    - cbn [step]. destruct (control_frame w) as (Hc & Hs & _). unfold control in Hc.
      split; congruence. }
  destruct Hstep as [Hts' Hs'].
  destruct (IH (step e w) Hin Hts') as [-> ->]. done.
Qed.

(** C3, as the code has it.  Detaching cancels the pending timeout and
    changes neither the page nor the record of synchronizations; and as long
    as no notification that passes the listeners' guard is delivered
    afterwards (time, frames, attaching, detaching and malformed
    notifications may happen), no synchronization starts. *)
Theorem detach_cancels_pending (w : World) (es : list Event) :
  wf w →
  forallb isInert es = true →
  timers (step Detach w) = [] ∧
  syncs (step Detach w) = syncs w ∧
  syncs (run es (step Detach w)) = syncs w.
Proof.
  intros Hwf Hin.
  assert (Hts : timers (step Detach w) = []).
  { cbn [step]. rewrite disconnectedCallback_run. cbn. by apply wf_cleared. }
  assert (Hs : syncs (step Detach w) = syncs w).
  { cbn [step]. by rewrite disconnectedCallback_run. }
  split; [done|]. split; [done|].
  destruct (inert_idle es (step Detach w) Hin Hts) as [_ ->]. done.
Qed.

Lemma detach_cancels_pending_witness :
  let w := run [Attach; DocDispatch (variantPayload (VInt 1)); Elapse 30] pageAB in
  let es := [Elapse 200; Frame; Attach; BusEmit (VObj []); Elapse 500;
             DocDispatch VNull; Detach; Elapse 1000] in
  timers (step Detach w) = [] ∧
  syncs (step Detach w) = syncs w ∧
  syncs (run es (step Detach w)) = syncs w.
Proof.
  apply (detach_cancels_pending
           (run [Attach; DocDispatch (variantPayload (VInt 1)); Elapse 30] pageAB)
           [Elapse 200; Frame; Attach; BusEmit (VObj []); Elapse 500;
            DocDispatch VNull; Detach; Elapse 1000]).
  - apply wf_run, wf_init.
  - reflexivity.
Defined.

(** C3 as stated fails: the listeners outlive the detachment, so a
    notification delivered after it still starts a synchronization. *)
Lemma sync_after_detach :
  let w := step Detach (step Attach pageAB) in
  syncs w = [] ∧
  syncs (run [DocDispatch (variantPayload (VInt 1)); Elapse 100] w) = [VInt 1].
Proof. split; reflexivity. Qed.

(** ** Subscriptions across attach and detach *)

Lemma cycles_subscriptions k : ∀ w,
  docListeners (cycles k w) = docListeners w ++ replicate k DocListener ∧
  eventBus (cycles k w)
  = (λ hs, hs ++ replicate k BusListener) <$> eventBus w ∧
  trace (cycles k w) = trace w.
Proof.
  induction k as [|k IH]; intros w.
  { cbn. rewrite app_nil_r. split; [done|]. split; [|done].
    destruct (eventBus w); cbn; by rewrite ?app_nil_r. }
  cbn [cycles step]. destruct (IH (runTask disconnectedCallback
                                    (runTask connectedCallback w)))
    as (-> & -> & ->).
  rewrite disconnectedCallback_run, connectedCallback_run. cbn.
  rewrite <- app_assoc. split; [done|]. split; [|done].
  destruct (eventBus w); cbn; by rewrite <- ?app_assoc.
Qed.

Lemma handled_received v w :
  handled (received (variantPayload v) w) = handled w ++ [v].
Proof.
  unfold received. cbn [variantPayload passesGuard truthy propsOf ownProp].
  change (payloadId (variantPayload v)) with v.
  change (passesGuard (variantPayload v)) with true. cbn match.
  unfold exec. rewrite handleVariantChange_run. unfold handled. cbn.
  by rewrite omap_app.
Qed.

Lemma handled_foldl_received {L} v (ls : list L) : ∀ w,
  handled (foldl (λ w _, received (variantPayload v) w) w ls)
  = handled w ++ replicate (length ls) v.
Proof.
  induction ls as [|l ls IH]; intros w; [by rewrite app_nil_r|].
  cbn [foldl]. rewrite IH, handled_received, <- app_assoc. done.
Qed.

(** C9.  (1) Detaching leaves every part of the page as it was, except the
    timer table: the slides, [this.debounceTimer], both sliders, the clock,
    the frame queue, the handlers on the event bus, the listeners on
    [document] and everything observed so far are unchanged, and the only
    change to the timer table is that, on a page satisfying the debounce
    invariant, the pending timeout is gone.  (2) After [k] rounds of
    attaching and detaching a freshly constructed element, [k] listeners are
    registered on [document] and, where the page has an event bus, [k]
    handlers on the bus; one well-formed notification on [document] calls
    [handleVariantChange] [k] times, and so does one on the bus when there is
    one. *)
Theorem detach_keeps_subscriptions :
  (∀ w,
     let w' := step Detach w in
     slides w' = slides w ∧ debounceTimer w' = debounceTimer w ∧
     swiperThumbs w' = swiperThumbs w ∧ swiperMain w' = swiperMain w ∧
     clock w' = clock w ∧ nextTimerId w' = nextTimerId w ∧
     rafQueue w' = rafQueue w ∧ eventBus w' = eventBus w ∧
     docListeners w' = docListeners w ∧ trace w' = trace w ∧
     (∀ t, t ∈ timers w' → t ∈ timers w) ∧
     (wf w → timers w' = [])) ∧
  (∀ k dom bus thumbs main v,
     let w := cycles k (init dom bus thumbs main) in
     docListeners w = replicate k DocListener ∧
     eventBus w = (if bus then Some (replicate k BusListener) else None) ∧
     handled (step (DocDispatch (variantPayload v)) w) = replicate k v ∧
     handled (step (BusEmit (variantPayload v)) w)
     = (if bus then replicate k v else [])).
Proof.
  split.
  - intros w. cbn zeta. cbn [step]. rewrite disconnectedCallback_run. cbn.
    do 10 (split; [done|]). split.
    + intros t Ht. destruct (handleTruthy (debounceTimer w)); [|done].
      apply list_elem_of_In, List.filter_In in Ht as [Ht _].
      by apply list_elem_of_In.
    + apply wf_cleared.
  - intros k dom bus thumbs main v. cbn zeta.
    destruct (cycles_subscriptions k (init dom bus thumbs main))
      as (Hdoc & Hbus & Htr).
    set (w := cycles k (init dom bus thumbs main)) in *.
    assert (Hh : handled w = []) by (unfold handled; by rewrite Htr).
    split; [done|]. split; [by rewrite Hbus; destruct bus|].
    cbn [step]. split.
    + rewrite deliver_doc, handled_foldl_received, Hh, Hdoc. cbn.
      by rewrite length_replicate.
    + rewrite Hbus. destruct bus; cbn -[deliver handled]; [|done].
      rewrite deliver_bus, handled_foldl_received, Hh. cbn.
      by rewrite length_replicate.
Qed.

Lemma detach_keeps_subscriptions_witness :
  let w := run [Attach; DocDispatch (variantPayload (VInt 1)); Elapse 30] pageAB in
  timers w ≠ [] ∧ timers (step Detach w) = [] ∧
  docListeners (step Detach w) = docListeners w ∧
  eventBus (step Detach w) = eventBus w.
Proof.
  destruct (proj1 detach_keeps_subscriptions
              (run [Attach; DocDispatch (variantPayload (VInt 1)); Elapse 30]
                 pageAB))
    as (_ & _ & _ & _ & _ & _ & _ & Hbus & Hdoc & _ & _ & Hcancel).
  split; [discriminate|]. split; [|split; assumption].
  apply Hcancel, wf_run, wf_init.
Defined.

Example three_cycles_three_calls :
  handled (step (DocDispatch (variantPayload (VInt 7))) (cycles 3 pageAB))
  = [VInt 7; VInt 7; VInt 7].
Proof. reflexivity. Qed.

(** ** Malformed payloads *)

(** C4.  The guard of the listeners checks the payload and its [variant],
    not the identifier.  A notification whose variant object has no [id] (or
    a null one) is therefore handled like any other: it cancels a pending
    synchronization for a valid identifier, and when its own timeout fires,
    [undefined.toString()] throws a [TypeError] as soon as there is a main
    slide to compare with. *)
Theorem missing_id_not_ignored :
  trace (run [Attach; DocDispatch (VObj [("variant", VObj [])]); Elapse 100]
           pageAB)
  = [ObsHandle VUndefined; ObsSync VUndefined; ObsUncaught TypeError] ∧
  trace (run [Attach; BusEmit (variantPayload (VInt 1)); Elapse 50;
              BusEmit (variantPayload VNull); Elapse 100; Frame; Frame]
           pageAB)
  = [ObsHandle (VInt 1); ObsHandle VNull; ObsSync VNull;
     ObsUncaught TypeError].
Proof. split; reflexivity. Qed.

(** ** Registration *)

Lemma registerElement_defined p :
  is_Some (registry p !! TAG) → registerElement p = (Normal tt, p).
Proof.
  intros H. unfold registerElement, customElementsGet. eff_unfold.
  by rewrite bool_decide_true.
Qed.

Lemma registerElement_fresh p :
  registry p !! TAG = None →
  registerElement p
  = (Normal tt,
     mkPage (<[TAG := ProductMedia]> (registry p)) (defined p ++ [TAG])).
Proof.
  intros H. unfold registerElement, customElementsGet, customElementsDefine.
  eff_unfold. rewrite bool_decide_false by (rewrite H; by intros [? ?]).
  cbn. by rewrite H.
Qed.

Lemma loadScript_defined n p :
  is_Some (registry p !! TAG) → loadScript n p = (0, p).
Proof.
  intros H. induction n as [|n IH]; [done|].
  cbn [loadScript]. by rewrite registerElement_defined.
Qed.

(** C8.  Evaluating the script never throws, and evaluating it again
    changes nothing: on a page where the tag is taken, [registerElement]
    skips [customElements.define]; any number of evaluations, at least one,
    leaves the page as a single evaluation does; and on a page where the tag
    was free, after any such number of evaluations [define] has succeeded
    for the tag exactly once and the tag is bound to the [ProductMedia]
    class. *)
Theorem registration_idempotent :
  (∀ p, is_Some (registry p !! TAG) → registerElement p = (Normal tt, p)) ∧
  (∀ n p, loadScript (S n) p = loadScript 1 p ∧ (loadScript (S n) p).1 = 0) ∧
  (∀ n p,
     registry p !! TAG = None → timesDefined TAG p = 0 →
     let p' := (loadScript (S n) p).2 in
     timesDefined TAG p' = 1 ∧ registry p' !! TAG = Some ProductMedia).
Proof.
  assert (Hrun : ∀ n p,
            loadScript (S n) p = (0, (registerElement p).2) ∧
            is_Some (registry (registerElement p).2 !! TAG)).
  { intros n p. cbn [loadScript].
    destruct (registry p !! TAG) as [c|] eqn:Hp.
    - rewrite registerElement_defined by eauto. cbn.
      rewrite loadScript_defined by eauto. eauto.
    - rewrite registerElement_fresh by done. cbn.
      rewrite loadScript_defined by (cbn; rewrite lookup_insert_eq; eauto).
      rewrite lookup_insert_eq. eauto. }
  split; [exact registerElement_defined|]. split.
  - intros n p. destruct (Hrun n p) as [-> _]. destruct (Hrun 0 p) as [-> _].
    done.
  - intros n p Hfree Hnone. destruct (Hrun n p) as [-> _]. cbn zeta.
    rewrite registerElement_fresh by done. cbn [snd registry].
    rewrite lookup_insert_eq. split; [|done].
    unfold timesDefined in *. cbn [defined].
    rewrite List.filter_app, length_app, Hnone. cbn [List.filter].
    by rewrite String.eqb_refl.
Qed.

Example script_loaded_three_times :
  let p := (loadScript 3 (mkPage ∅ [])).2 in
  defined p = ["product-media"] ∧ registry p !! TAG = Some ProductMedia.
Proof. split; [reflexivity | vm_compute; reflexivity]. Qed.

Example script_after_foreign_definition :
  loadScript 2 (mkPage {[ TAG := ForeignElement ]} [])
  = (0, mkPage {[ TAG := ForeignElement ]} []).
Proof.
  apply loadScript_defined. cbn [registry]. rewrite lookup_singleton_eq. eauto.
Qed.

Lemma registration_idempotent_witness :
  let p' := (loadScript 3 (mkPage ∅ [])).2 in
  timesDefined TAG p' = 1 ∧ registry p' !! TAG = Some ProductMedia.
Proof.
  apply (proj2 (proj2 registration_idempotent) 2 (mkPage ∅ [])); reflexivity.
Defined.

(** * Page-wide properties *)

(** ** Every step in explicit form *)

Lemma received_scheduled data w :
  wf w →
  received data w
  = if passesGuard data
    then scheduled (payloadId data)
           (withTrace (trace w ++ [ObsHandle (payloadId data)]) w)
    else w.
Proof.
  intros Hwf. unfold received. destruct (passesGuard data); [|done].
  unfold exec. rewrite handleVariantChange_run.
  rewrite wf_cleared by (by apply (wf_same_timers w)). done.
Qed.

Lemma runTask_timerCallback t w : runTask (timerCallback t) w = fired t w.
Proof.
  unfold runTask, timerCallback, observe, fired.
  set (w0 := withTrace (trace w ++ [ObsSync (arg t)]) w).
  assert (Hrun : (modify (λ w, withTrace (trace w ++ [ObsSync (arg t)]) w)
                  ≫= λ _, updateMediaForVariant (arg t)) w
                 = updateMediaForVariant (arg t) w0) by done.
  rewrite Hrun. clear Hrun.
  destruct (stringForm (arg t)) as [str|] eqn:Hstr.
  - by rewrite (updateMediaForVariant_spec _ str).
  - rewrite updateMediaForVariant_no_stringForm by done.
    by destruct (existsb inMain (slides w0)).
Qed.

Lemma fired_control t w : control (fired t w) = control w.
Proof.
  rewrite <- runTask_timerCallback. apply timerCallback_run.
Qed.

(** Time passing on a page that keeps the debounce invariant: either nothing
    is due, or the one pending timeout fires. *)
Lemma elapse_cases ms w :
  wf w →
  ((∀ t, t ∈ timers w → clock w + ms < due t) ∧
   elapse ms w = withClock (clock w + ms) w) ∨
  (∃ t, timers w = [t] ∧ due t ≤ clock w + ms ∧
        elapse ms w = withClock (clock w + ms) (fired t (withTimers [] w))).
Proof.
  intros (_ & Hlen & _).
  destruct (timers w) as [|t [|t' ts]] eqn:Hts; cbn in Hlen; [| |lia].
  - left. split; [intros t Ht; inversion Ht|]. by apply elapse_idle.
  - destruct (Nat.lt_ge_cases (clock w + ms) (due t)) as [Hlt|Hge].
    + left. split; [|by apply (elapse_pending ms w t)].
      intros t' Ht'. by apply list_elem_of_singleton in Ht' as ->.
    + right. exists t. split; [done|]. split; [done|].
      rewrite <- runTask_timerCallback. by apply elapse_fires.
Qed.

Lemma frame_invariant (P : World → Prop) :
  (∀ w, P w → P (withRafQueue [] w)) →
  (∀ cb u, P u → P (runTask (runRafCallback cb) u)) →
  ∀ w, P w → P (frame w).
Proof.
  intros Hclear Hcb w Hw. unfold frame.
  apply Hclear in Hw. revert Hw. generalize (withRafQueue [] w) as u.
  induction (rafQueue w) as [|cb q IH]; intros u Hu; [done|].
  cbn [foldl]. apply IH. by apply Hcb.
Qed.

(** ** Invariants of reachable pages

    A property that is stable under the six things that can happen to the
    page holds after every sequence of events. *)
Section Invariants.
Variable P : World → Prop.
Variable Q : Value → Prop.

Hypothesis P_attach : ∀ w, P w → P (attached w).
Hypothesis P_cancel : ∀ w, wf w → P w → P (withTimers [] w).
Hypothesis P_notify : ∀ v w,
  Q v → wf w → P w → P (scheduled v (withTrace (trace w ++ [ObsHandle v]) w)).
Hypothesis P_wait : ∀ ms w,
  (∀ t, t ∈ timers w → clock w + ms < due t) → P w →
  P (withClock (clock w + ms) w).
Hypothesis P_fire : ∀ t w,
  wf w → timers w = [t] → P w → P (fired t (withTimers [] w)).
Hypothesis P_frame : ∀ w, P w → P (frame w).

Lemma invariant_received {L} data (ls : list L) : ∀ w,
  (passesGuard data = true → Q (payloadId data)) → wf w → P w →
  P (foldl (λ w _, received data w) w ls).
Proof.
  induction ls as [|l ls IH]; intros w HQ Hwf Hw; [done|].
  cbn [foldl]. apply IH; [done | by apply wf_received |].
  rewrite received_scheduled by done.
  destruct (passesGuard data); [|done]. by apply P_notify; auto.
Qed.

Lemma invariant_step e w : notifies Q e → wf w → P w → P (step e w).
Proof.
  intros He Hwf Hw. destruct e as [| |data|detail|ms|]; cbn [step].
  - rewrite connectedCallback_run. by apply P_attach.
  - rewrite disconnectedCallback_run, wf_cleared by done. by apply P_cancel.
  - destruct (eventBus w) as [hs|]; [|done].
    rewrite deliver_bus. by apply invariant_received.
  - rewrite deliver_doc. by apply invariant_received.
  - destruct (elapse_cases ms w Hwf) as [[Hnone ->]|(t & Hts & Hdue & ->)].
    + by apply P_wait.
    + pose proof (fired_control t (withTimers [] w)) as Hc.
      unfold control in Hc. cbn in Hc.
      replace (clock w) with (clock (fired t (withTimers [] w)))
        by congruence.
      apply P_wait; [|by apply P_fire].
      intros t' Ht'. replace (timers (fired t (withTimers [] w)))
        with (@nil Timer) in Ht' by congruence. inversion Ht'.
  - by apply P_frame.
Qed.

Lemma invariant_run es : ∀ w,
  Forall (notifies Q) es → wf w → P w → P (run es w).
Proof.
  induction es as [|e es IH]; intros w Hes Hwf Hw; [done|].
  apply Forall_cons in Hes as [He Hes]. rewrite run_cons.
  apply IH; [done | by apply wf_step | by apply invariant_step].
Qed.
End Invariants.

Lemma notifies_True es : Forall (notifies (λ _, True)) es.
Proof. apply Forall_forall. intros e _. by destruct e. Qed.

(** ** The pending timeout *)

Lemma dueSoon_run es : ∀ w,
  wf w → dueSoon w → dueSoon (run es w).
Proof.
  intros w Hwf Hw.
  apply (invariant_run dueSoon (λ _, True)); [| | | | | | |done|done]; clear.
  - intros w Hw t Ht. by apply Hw.
  - intros w _ _ t Ht. inversion Ht.
  - intros v w _ _ _ t Ht. cbn in Ht.
    apply list_elem_of_singleton in Ht as ->. cbn.
    unfold DEBOUNCE_DELAY. lia.
  - intros ms w Hfut Hw t Ht. cbn in *.
    destruct (Hw t Ht). specialize (Hfut t Ht). lia.
  - intros t w _ _ _ t' Ht'.
    pose proof (fired_control t (withTimers [] w)) as Hc.
    unfold control in Hc. cbn in Hc.
    replace (timers (fired t (withTimers [] w))) with (@nil Timer) in Ht'
      by congruence. inversion Ht'.
  - intros w Hw t Ht. destruct (control_frame w) as (Hc & _).
    unfold control in Hc.
    replace (timers (frame w)) with (timers w) in Ht by congruence.
    replace (clock (frame w)) with (clock w) by congruence. by apply Hw.
  - apply notifies_True.
Qed.

(** X1.  Whatever happens to a freshly constructed element, at most one
    timeout of it is pending, [this.debounceTimer] holds its handle, and it
    is due in the future, at most one debounce delay from now. *)
Theorem one_pending_timeout dom bus thumbs main es :
  let w := run es (init dom bus thumbs main) in
  length (timers w) ≤ 1 ∧
  ∀ t, t ∈ timers w →
    debounceTimer w = Some (tid t) ∧
    clock w < due t ∧ due t ≤ clock w + DEBOUNCE_DELAY.
Proof.
  cbn zeta. set (w0 := init dom bus thumbs main).
  assert (Hwf : wf (run es w0)) by apply wf_run, wf_init.
  assert (Hdue : dueSoon (run es w0)).
  { apply dueSoon_run; [apply wf_init|]. intros t Ht. inversion Ht. }
  destruct Hwf as (_ & Hlen & Hdt). split; [done|].
  intros t Ht. destruct (Hdt t Ht) as [-> _]. destruct (Hdue t Ht). done.
Qed.

(** X2.  Once a freshly constructed element has been left alone for a full
    debounce delay (only time and frames pass), nothing is pending any more,
    and the synchronization that was pending, if any, is the only one that
    has started meanwhile. *)
Theorem quiet_delay_settles dom bus thumbs main es after :
  forallb isQuiet after = true →
  DEBOUNCE_DELAY ≤ elapsed after →
  let w := run es (init dom bus thumbs main) in
  timers (run after w) = [] ∧
  syncs (run after w) = syncs w ++ map arg (timers w).
Proof.
  intros Hq Hlong. cbn zeta. set (w := run es (init dom bus thumbs main)).
  assert (Hwf : wf w) by apply wf_run, wf_init.
  assert (Hdue : dueSoon w).
  { apply dueSoon_run; [apply wf_init|]. intros t Ht. inversion Ht. }
  destruct Hwf as (_ & Hlen & _).
  destruct (timers w) as [|t [|t' ts]] eqn:Hts; cbn in Hlen; [| |lia].
  - destruct (quiet_idle after w Hq Hts) as [-> ->]. by rewrite app_nil_r.
  - destruct (Hdue t) as [Hfut Hnear]; [rewrite Hts; by left|].
    destruct (quiet_fires after w t Hq Hts Hfut) as [-> ->]; [lia|done].
Qed.

Lemma quiet_delay_settles_witness :
  let w := run [Attach; BusEmit (variantPayload (VInt 2)); Elapse 70] pageAB in
  timers w ≠ [] ∧
  timers (run [Elapse 60; Frame; Elapse 40] w) = [] ∧
  syncs (run [Elapse 60; Frame; Elapse 40] w) = syncs w ++ map arg (timers w).
Proof.
  split; [discriminate|].
  apply (quiet_delay_settles galleryAB true (Some (mkSwiper 3 0))
           (Some (mkSwiper 2 0))
           [Attach; BusEmit (variantPayload (VInt 2)); Elapse 70]
           [Elapse 60; Frame; Elapse 40]).
  - reflexivity.
  - unfold DEBOUNCE_DELAY. cbn. lia.
Defined.

(** ** What the component never writes *)

Lemma shape_syncSlide str e : shape (syncSlide str e) = shape e.
Proof.
  unfold shape.
  by rewrite syncSlide_inMain, syncSlide_inThumbs, syncSlide_dataVariantId.
Qed.

Lemma shape_synced str w :
  map shape (slides (synced str w)) = map shape (slides w).
Proof.
  unfold synced. destruct (existsb (mainMatch str) (slides w)); [|done].
  cbn. rewrite map_map. apply map_ext. intros e. apply shape_syncSlide.
Qed.

Lemma shape_fired t w : map shape (slides (fired t w)) = map shape (slides w).
Proof.
  unfold fired. destruct (stringForm (arg t)).
  - by rewrite shape_synced.
  - cbn. by destruct (existsb inMain (slides w)).
Qed.

(** X3.  No sequence of events adds or removes a slide, moves a slide to
    another gallery or changes a variant attribute: the list of gallery
    memberships and attributes of the component's slides stays what it
    was. *)
Theorem slides_keep_their_shape (w : World) (es : list Event) :
  wf w →
  map shape (slides (run es w)) = map shape (slides w).
Proof.
  intros Hwf.
  apply (invariant_run (λ u, map shape (slides u) = map shape (slides w))
           (λ _, True)); [| | | | | | |done|done].
  - by intros u Hu.
  - by intros u _ Hu.
  - by intros v u _ _ Hu.
  - by intros ms u _ Hu.
  - intros t u _ _ Hu. by rewrite shape_fired.
  - intros u Hu.
    apply (frame_invariant (λ x, map shape (slides x) = map shape (slides w)));
      [done| |done].
    intros [] x Hx; [by rewrite runTask_refresh | by rewrite runTask_announce].
  - apply notifies_True.
Qed.

Lemma slides_keep_their_shape_witness :
  map shape (slides (run [Attach; BusEmit (variantPayload (VInt 2));
                          Elapse 100; Frame; Frame] pageAB))
  = map shape galleryAB.
Proof.
  apply (slides_keep_their_shape pageAB
           [Attach; BusEmit (variantPayload (VInt 2)); Elapse 100; Frame; Frame]).
  apply wf_init.
Defined.

(** X4.  Only a timer task writes to the slides or lets an exception
    escape: attaching, detaching, a notification on either channel (whatever
    its payload) and an animation frame leave every slide and the record of
    uncaught exceptions as they were. *)
Theorem only_timer_tasks_write (w : World) (e : Event) :
  (∀ ms, e ≠ Elapse ms) →
  slides (step e w) = slides w ∧ uncaught (step e w) = uncaught w.
Proof.
  intros Hne.
  assert (Hfold : ∀ {L} data (ls : list L) u,
            slides (foldl (λ w _, received data w) u ls) = slides u ∧
            uncaught (foldl (λ w _, received data w) u ls) = uncaught u).
  { intros L data ls. induction ls as [|l ls IH]; intros u; [done|].
    cbn [foldl]. destruct (IH (received data u)) as [-> ->].
    unfold received. destruct (passesGuard data); [|done].
    unfold exec. rewrite handleVariantChange_run. unfold uncaught. cbn.
    rewrite omap_app. cbn. by rewrite app_nil_r. }
  destruct e as [| |data|detail|ms|]; cbn [step].
  - by rewrite connectedCallback_run.
  - by rewrite disconnectedCallback_run.
  - destruct (eventBus w); [|done]. rewrite deliver_bus. apply Hfold.
  - rewrite deliver_doc. apply Hfold.
  - by destruct (Hne ms).
  - apply (frame_invariant
             (λ u, slides u = slides w ∧ uncaught u = uncaught w));
      [done| |done].
    intros [] u [Hs Hu].
    + rewrite runTask_refresh. split; [done|]. unfold uncaught, refreshObs.
      cbn. rewrite omap_app.
      destruct (swiperThumbs u), (swiperMain u); cbn;
        by rewrite app_nil_r.
    + rewrite runTask_announce. split; [done|]. unfold uncaught. cbn.
      rewrite omap_app. cbn. by rewrite app_nil_r.
Qed.

Lemma only_timer_tasks_write_witness :
  let w := run [Attach; BusEmit (variantPayload VNull); Elapse 50] pageAB in
  slides (step (DocDispatch (VObj [("variant", VObj [])])) w) = slides w ∧
  uncaught (step (DocDispatch (VObj [("variant", VObj [])])) w) = uncaught w.
Proof.
  apply (only_timer_tasks_write
           (run [Attach; BusEmit (variantPayload VNull); Elapse 50] pageAB)
           (DocDispatch (VObj [("variant", VObj [])]))).
  intros ms. discriminate.
Defined.

(** ** Notifications, synchronizations and broadcasts *)

Lemma fired_trace t w :
  ∃ tr, trace (fired t w) = trace w ++ ObsSync (arg t) :: tr ∧
        omap syncOf tr = [] ∧ omap handleOf tr = [] ∧
        List.filter isDispatch tr = [] ∧
        (∀ which, List.filter (callsOn which) tr = []) ∧
        (printable (arg t) = true → omap uncaughtOf tr = []) ∧
        Forall (λ e, e = TypeError) (omap uncaughtOf tr).
Proof.
  unfold fired, printable. destruct (stringForm (arg t)) as [str|].
  - exists []. unfold synced.
    destruct (existsb (mainMatch str) _); cbn; repeat split; auto.
  - cbn. destruct (existsb inMain (slides w)); cbn.
    + exists [ObsUncaught TypeError]. rewrite <- app_assoc. cbn.
      split; [done|]. split; [done|]. split; [done|]. split; [done|].
      split; [by intros []|]. split; [done|]. by repeat constructor.
    + exists []. repeat split; auto.
Qed.

Lemma frame_trace w :
  ∃ tr, trace (frame w) = trace w ++ tr ∧
        omap syncOf tr = [] ∧ omap handleOf tr = [] ∧ omap uncaughtOf tr = [].
Proof.
  apply (frame_invariant
           (λ u, ∃ tr, trace u = trace w ++ tr ∧ omap syncOf tr = [] ∧
                       omap handleOf tr = [] ∧ omap uncaughtOf tr = [])).
  - intros u Hu. exact Hu.
  - intros cb u (tr & Htr & Hs & Hh & Hu). destruct cb.
    + rewrite runTask_refresh. exists (tr ++ refreshObs u). cbn.
      rewrite Htr, <- app_assoc, !omap_app, Hs, Hh, Hu. unfold refreshObs.
      by destruct (swiperThumbs u), (swiperMain u).
    + rewrite runTask_announce. exists (tr ++ [ObsDispatch MEDIA_UPDATED]).
      cbn. by rewrite Htr, <- app_assoc, !omap_app, Hs, Hh, Hu.
  - exists []. by rewrite app_nil_r.
Qed.

(** X5.  On every page reached from a freshly constructed element, the
    identifiers synchronized so far, followed by the one still pending, form
    a subsequence of the identifiers the listeners handed to
    [handleVariantChange]: a synchronization only ever runs for an
    identifier that was notified, in the order of the notifications, and
    none is synchronized more often than it was notified. *)
Theorem syncs_follow_notifications dom bus thumbs main es :
  let w := run es (init dom bus thumbs main) in
  syncs w ++ map arg (timers w) `sublist_of` handled w.
Proof.
  cbn zeta.
  apply (invariant_run
           (λ u, syncs u ++ map arg (timers u) `sublist_of` handled u)
           (λ _, True)).
  - by intros u Hu.
  - intros u _ Hu. cbn. rewrite app_nil_r.
    etrans; [|exact Hu]. by apply sublist_inserts_r.
  - intros v u _ _ Hu. unfold syncs, handled. cbn.
    rewrite !omap_app. cbn. rewrite app_nil_r.
    apply sublist_app; [|done].
    etrans; [|exact Hu]. by apply sublist_inserts_r.
  - by intros ms u _ Hu.
  - intros t u _ Hts Hu. rewrite Hts in Hu. cbn in Hu.
    pose proof (fired_control t (withTimers [] u)) as Hc.
    unfold control in Hc. cbn in Hc.
    replace (timers (fired t (withTimers [] u))) with (@nil Timer)
      by congruence.
    destruct (fired_trace t (withTimers [] u)) as (tr & Htr & Hs & Hh & _).
    unfold syncs, handled in *. rewrite Htr. cbn [trace withTimers].
    rewrite !omap_app. cbn. rewrite Hs, Hh, !app_nil_r. exact Hu.
  - intros u Hu. destruct (control_frame u) as (Hc & -> & ->).
    unfold control in Hc. by replace (timers (frame u)) with (timers u)
      by congruence.
  - apply notifies_True.
  - apply wf_init.
  - done.
Qed.

Lemma printable_notifies es :
  forallb idPrintable es = true →
  Forall (notifies (λ v, printable v = true)) es.
Proof.
  intros H. apply Forall_forall. intros e He.
  apply list_elem_of_In in He.
  pose proof (proj1 (forallb_forall idPrintable es) H e He) as Hp.
  destruct e; cbn in *; try done; intros Hg; by rewrite Hg in Hp.
Qed.

(** X6.  As long as [toString()] returns a string for every identifier that
    reaches [handleVariantChange] (the identifier is not [undefined], not
    [null], and not an object whose own [toString] property hides the
    inherited method), no exception ever escapes the component, whatever the
    sequence of events. *)
Theorem printable_ids_never_throw dom bus thumbs main es :
  forallb idPrintable es = true →
  uncaught (run es (init dom bus thumbs main)) = [].
Proof.
  intros Hes.
  apply (invariant_run
           (λ u, uncaught u = [] ∧
                 ∀ t, t ∈ timers u → printable (arg t) = true)
           (λ v, printable v = true)).
  - by intros u Hu.
  - intros u _ [Hu _]. split; [done|]. intros t Ht. inversion Ht.
  - intros v u Hv _ [Hu _]. split.
    + unfold uncaught in *. cbn. rewrite omap_app, Hu. done.
    + intros t Ht. cbn in Ht. by apply list_elem_of_singleton in Ht as ->.
  - by intros ms u _ Hu.
  - intros t u _ Hts [Hu Hp].
    pose proof (fired_control t (withTimers [] u)) as Hc.
    unfold control in Hc. cbn in Hc. split.
    + destruct (fired_trace t (withTimers [] u))
        as (tr & Htr & _ & _ & _ & _ & Hnone & _).
      unfold uncaught in *. rewrite Htr. cbn [trace withTimers].
      rewrite omap_app, Hu. cbn. apply Hnone, Hp. rewrite Hts. by left.
    + intros t' Ht'.
      replace (timers (fired t (withTimers [] u))) with (@nil Timer) in Ht'
        by congruence. inversion Ht'.
  - intros u [Hu Hp]. destruct (control_frame u) as (Hc & _).
    unfold control in Hc. split.
    + destruct (frame_trace u) as (tr & Htr & _ & _ & Hnone).
      unfold uncaught in *. by rewrite Htr, omap_app, Hu, Hnone.
    + intros t Ht. apply Hp. by replace (timers u) with (timers (frame u))
        by congruence.
  - by apply printable_notifies.
  - apply wf_init.
  - split; [done|]. intros t Ht. inversion Ht.
Qed.

Lemma printable_ids_never_throw_witness :
  uncaught (run [Attach; BusEmit (variantPayload (VInt 2));
                 DocDispatch (variantPayload (VStr "9")); Elapse 100; Frame;
                 DocDispatch VNull; BusEmit (VObj []); Elapse 100; Frame]
              pageAB) = [].
Proof.
  apply (printable_ids_never_throw galleryAB true (Some (mkSwiper 3 0))
           (Some (mkSwiper 2 0))).
  reflexivity.
Defined.

Example own_toString_property_throws :
  let v := VObj [("toString", VStr "x")] in
  printable v = false ∧
  uncaught (run [Attach; DocDispatch (variantPayload v); Elapse 100] pageAB)
  = [TypeError].
Proof. split; reflexivity. Qed.


Lemma dispatches_fired t w :
  dispatches (fired t w) = dispatches w ∧
  length (syncs (fired t w)) = S (length (syncs w)) ∧
  length (rafQueue (fired t w)) ≤ S (length (rafQueue w)).
Proof.
  destruct (fired_trace t w) as (tr & Htr & Hs & _ & Hd & _).
  unfold dispatches, syncs. rewrite Htr.
  rewrite List.filter_app, omap_app, !length_app. cbn. rewrite Hd, Hs. cbn.
  split; [lia|]. split; [lia|].
  unfold fired. destruct (stringForm (arg t)) as [str|].
  - unfold synced. destruct (existsb _ _); cbn; rewrite ?length_app; cbn; lia.
  - cbn. destruct (existsb inMain (slides w)); cbn; lia.
Qed.

(** X7.  On every page reached from a freshly constructed element, the
    ['product-media:updated'] notifications dispatched so far, together with
    the frame callbacks still queued, are no more than the synchronizations
    that have started: the component never announces an update it did not
    make. *)
Theorem broadcasts_follow_syncs dom bus thumbs main es :
  let w := run es (init dom bus thumbs main) in
  dispatches w + length (rafQueue w) ≤ length (syncs w).
Proof.
  cbn zeta.
  apply (invariant_run
           (λ u, dispatches u + length (rafQueue u) ≤ length (syncs u))
           (λ _, True)).
  - by intros u Hu.
  - by intros u _ Hu.
  - intros v u _ _ Hu. unfold dispatches, syncs in *. cbn.
    rewrite List.filter_app, omap_app, !length_app. cbn. lia.
  - by intros ms u _ Hu.
  - intros t u _ _ Hu.
    destruct (dispatches_fired t (withTimers [] u)) as (Hd & Hs & Hq).
    rewrite Hd, Hs. change (syncs (withTimers [] u)) with (syncs u).
    change (dispatches (withTimers [] u)) with (dispatches u).
    change (rafQueue (withTimers [] u)) with (rafQueue u) in Hq. lia.
  - intros u Hu. destruct (frame_count u) as (Hd & Hq & _).
    destruct (control_frame u) as (_ & Hs & _).
    rewrite Hd, Hq, Hs, length_replicate.
    pose proof (countCallback_total (rafQueue u)). lia.
  - apply notifies_True.
  - apply wf_init.
  - cbn. lia.
Qed.

(** ** The sliders *)

(** X8.  The component never creates or drops a slider and only ever sends
    it to slide 0: after any sequence of events, a slider that was absent
    at construction is still absent and was never called, and a slider that
    was present is still present, at its original position or at slide 0. *)
Theorem sliders_only_reset dom bus thumbs main es :
  let w := run es (init dom bus thumbs main) in
  match thumbs with
  | None => swiperThumbs w = None ∧ sliderCalls Thumbs w = []
  | Some s0 => ∃ s, swiperThumbs w = Some s ∧ (s = s0 ∨ activeIndex s = 0)
  end ∧
  match main with
  | None => swiperMain w = None ∧ sliderCalls Main w = []
  | Some s0 => ∃ s, swiperMain w = Some s ∧ (s = s0 ∨ activeIndex s = 0)
  end.
Proof.
  cbn zeta.
  set (P := λ u : World,
    match thumbs with
    | None => swiperThumbs u = None ∧ sliderCalls Thumbs u = []
    | Some s0 => ∃ s, swiperThumbs u = Some s ∧ (s = s0 ∨ activeIndex s = 0)
    end ∧
    match main with
    | None => swiperMain u = None ∧ sliderCalls Main u = []
    | Some s0 => ∃ s, swiperMain u = Some s ∧ (s = s0 ∨ activeIndex s = 0)
    end).
  assert (Hext : ∀ u u' tr,
            swiperThumbs u' = swiperThumbs u → swiperMain u' = swiperMain u →
            trace u' = trace u ++ tr →
            (∀ which, List.filter (callsOn which) tr = []) →
            P u → P u').
  { intros u u' tr Ht Hm Htr Hnone. unfold P, sliderCalls.
    rewrite Ht, Hm, Htr, !List.filter_app, !Hnone, !app_nil_r. done. }
  apply (invariant_run P (λ _, True)).
  - intros u Hu. apply (Hext u _ []); auto. cbn. by rewrite app_nil_r.
  - intros u _ Hu. apply (Hext u _ []); auto. cbn. by rewrite app_nil_r.
  - intros v u _ _ Hu. apply (Hext u _ [ObsHandle v]); auto;
      try (by intros []).
  - intros ms u _ Hu. apply (Hext u _ []); auto. cbn. by rewrite app_nil_r.
  - intros t u _ _ Hu.
    destruct (fired_trace t (withTimers [] u))
      as (tr & Htr & _ & _ & _ & Hcalls & _).
    apply (Hext u _ (ObsSync (arg t) :: tr)); [| |exact Htr| |exact Hu].
    + unfold fired. destruct (stringForm (arg t)) as [str|]; cbn.
      * unfold synced. by destruct (existsb _ _).
      * by destruct (existsb inMain (slides u)).
    + unfold fired. destruct (stringForm (arg t)) as [str|]; cbn.
      * unfold synced. by destruct (existsb _ _).
      * by destruct (existsb inMain (slides u)).
    + intros which. cbn. rewrite Hcalls. by destruct which.
  - intros u Hu. apply (frame_invariant P); [| |done]; clear u Hu.
    + intros u Hu. apply (Hext u _ []); auto. cbn. by rewrite app_nil_r.
    + intros [] u Hu.
      * rewrite runTask_refresh. unfold P, sliderCalls, refreshObs in *.
        cbn. destruct Hu as [Ht Hm]. split.
        -- destruct thumbs as [s0|].
           ++ destruct Ht as (s & -> & _). cbn. eauto.
           ++ destruct Ht as [-> Hc]. cbn. split; [done|].
              rewrite !List.filter_app, Hc. cbn.
              by destruct (swiperMain u).
        -- destruct main as [s0|].
           ++ destruct Hm as (s & -> & _). cbn. eauto.
           ++ destruct Hm as [-> Hc]. cbn. split; [done|].
              rewrite !List.filter_app, Hc. cbn.
              by destruct (swiperThumbs u).
      * rewrite runTask_announce.
        apply (Hext u _ [ObsDispatch MEDIA_UPDATED]); auto;
          try (by intros []).
  - apply notifies_True.
  - apply wf_init.
  - unfold P, sliderCalls. cbn.
    split; [destruct thumbs | destruct main]; eauto.
Qed.

(** ** More on a single synchronization *)

Lemma syncSlide_idem str e : syncSlide str (syncSlide str e) = syncSlide str e.
Proof.
  unfold syncSlide at 2.
  destruct (inThumbs e) eqn:Ht; [|unfold syncSlide; by rewrite Ht].
  destruct (strictEq (dataVariantId e) str) eqn:Heq.
  - unfold syncSlide, shown. cbn. by rewrite Ht, Heq.
  - destruct (attrTruthy (dataVariantId e)) eqn:Hat.
    + unfold syncSlide. cbn. by rewrite Ht, Heq, Hat.
    + unfold syncSlide. by rewrite Ht, Heq, Hat.
Qed.

(** X9.  Running [updateMediaForVariant] a second time for the same
    identifier leaves every slide as the first run left it and observes
    nothing; the second run only queues again the frame request that the
    first run queued (one refresh callback when the identifier matches a
    main slide, none otherwise). *)
Theorem repeated_sync_same_slides (w : World) (v : Value) :
  let once := exec (updateMediaForVariant v) w in
  let twice := exec (updateMediaForVariant v) once in
  slides twice = slides once ∧
  trace twice = trace w ∧
  ∃ q, rafQueue once = rafQueue w ++ q ∧ rafQueue twice = rafQueue once ++ q ∧
       (q = [] ∨ q = [RefreshSliders]).
Proof.
  cbn zeta. rewrite !exec_updateMediaForVariant.
  destruct (stringForm v) as [str|]; last first.
  { split; [done|]. split; [done|]. exists []. by rewrite app_nil_r; auto. }
  pose proof (existsb_mainMatch_synced str str w) as Hsame.
  unfold synced in *.
  destruct (existsb (mainMatch str) (slides w)) eqn:Hex.
  - rewrite Hsame. cbn. split; [|split; [done|]].
    + rewrite map_map. apply map_ext. intros e. apply syncSlide_idem.
    + exists [RefreshSliders]. auto.
  - rewrite Hex. split; [done|]. split; [done|].
    exists []. by rewrite app_nil_r; auto.
Qed.

(** X10.  Identifiers are compared through their string form only: two
    identifiers with the same string form (a number and the string of its
    digits, or [undefined] and [null]) make [updateMediaForVariant] complete
    the same way and leave the same page. *)
Theorem same_string_form_same_sync (w : World) (v1 v2 : Value) :
  stringForm v1 = stringForm v2 →
  updateMediaForVariant v1 w = updateMediaForVariant v2 w.
Proof.
  intros Heq. destruct (stringForm v2) as [str|] eqn:H2.
  - by rewrite (updateMediaForVariant_spec v1 str),
      (updateMediaForVariant_spec v2 str).
  - by rewrite !updateMediaForVariant_no_stringForm.
Qed.

Lemma same_string_form_same_sync_witness :
  updateMediaForVariant (VInt 2) pageAB = updateMediaForVariant (VStr "2") pageAB ∧
  updateMediaForVariant VUndefined pageAB = updateMediaForVariant VNull pageAB.
Proof.
  split.
  - apply (same_string_form_same_sync pageAB (VInt 2) (VStr "2")). reflexivity.
  - apply (same_string_form_same_sync pageAB VUndefined VNull). reflexivity.
Defined.

(** X11.  An empty variant attribute counts as no attribute: when the
    identifier's string form is not empty, a slide whose attribute is the
    empty string is left exactly as it was (neither shown nor hidden). *)
Theorem empty_attribute_is_untagged (w : World) (v : Value) (str : string)
    (i : nat) (e : Slide) :
  stringForm v = Some str → str ≠ "" →
  slides w !! i = Some e → dataVariantId e = Some "" →
  slides (exec (updateMediaForVariant v) w) !! i = Some e.
Proof.
  intros Hstr Hne Hi Ha. rewrite exec_updateMediaForVariant, Hstr.
  unfold synced. destruct (existsb (mainMatch str) (slides w)); [|done].
  cbn. rewrite list_lookup_fmap, Hi. cbn. f_equal.
  unfold syncSlide. rewrite Ha.
  assert (H1 : strictEq (Some "") str = false)
    by (apply strictEq_false; congruence).
  rewrite H1. cbn. by destruct (inThumbs e).
Qed.

Lemma empty_attribute_is_untagged_witness :
  let w := withSlides (galleryAB ++ [mkSlide false true (Some "") "" ""]) pageAB in
  slides (exec (updateMediaForVariant (VInt 1)) w) !! 5
  = Some (mkSlide false true (Some "") "" "").
Proof.
  apply (empty_attribute_is_untagged
           (withSlides (galleryAB ++ [mkSlide false true (Some "") "" ""]) pageAB)
           (VInt 1) "1" 5 (mkSlide false true (Some "") "" ""));
    try reflexivity.
  discriminate.
Defined.

(** X12.  For an identifier that is [undefined] or [null] the method never
    changes the page: it throws a [TypeError] when the component has at
    least one main-gallery slide, and returns normally when it has none. *)
Theorem sync_without_identifier (w : World) (v : Value) :
  v = VUndefined ∨ v = VNull →
  ((∃ m, m ∈ slides w ∧ inMain m = true) →
     updateMediaForVariant v w = (Throw TypeError, w)) ∧
  ((∀ m, m ∈ slides w → inMain m = false) →
     updateMediaForVariant v w = (Normal tt, w)).
Proof.
  intros Hv.
  assert (Hstr : stringForm v = None) by (by destruct Hv as [-> | ->]).
  rewrite updateMediaForVariant_no_stringForm by done.
  destruct (existsb inMain (slides w)) eqn:Hex.
  - split; [done|]. intros Hnone.
    apply existsb_exists in Hex as (m & Hm & Hmain).
    apply list_elem_of_In in Hm. rewrite (Hnone m Hm) in Hmain. done.
  - split; [|done]. intros (m & Hm & Hmain).
    assert (existsb inMain (slides w) = true); [|congruence].
    apply existsb_exists. exists m. by rewrite <- list_elem_of_In.
Qed.

Lemma sync_without_identifier_witness :
  updateMediaForVariant VNull pageAB = (Throw TypeError, pageAB) ∧
  updateMediaForVariant VUndefined
    (withSlides [mkSlide false true (Some "1") "" ""] pageAB)
  = (Normal tt, withSlides [mkSlide false true (Some "1") "" ""] pageAB).
Proof.
  split.
  - apply (sync_without_identifier pageAB VNull); [by right|].
    exists (mkSlide true false (Some "1") "" "").
    split; [constructor | reflexivity].
  - apply (sync_without_identifier
             (withSlides [mkSlide false true (Some "1") "" ""] pageAB)
             VUndefined); [by left|].
    intros m Hm. cbn in Hm. apply list_elem_of_singleton in Hm as ->.
    reflexivity.
Defined.

(** ** Duplicate delivery *)

Lemma received_payload v w :
  wf w →
  received (variantPayload v) w
  = scheduled v (withTrace (trace w ++ [ObsHandle v]) w).
Proof. intros Hwf. by rewrite received_scheduled. Qed.

Lemma foldl_received_payload {L} v (ls : list L) : ∀ w,
  wf w →
  let w' := foldl (λ w _, received (variantPayload v) w) w ls in
  wf w' ∧ clock w' = clock w ∧ syncs w' = syncs w ∧
  (ls ≠ [] →
   ∃ h, timers w' = [mkTimer h (clock w + DEBOUNCE_DELAY) v]).
Proof.
  induction ls as [|l ls IH]; intros w Hwf; cbn zeta.
  { cbn. split; [done|]. split; [done|]. split; [done|]. by intros []. }
  cbn [foldl].
  set (w1 := received (variantPayload v) w).
  assert (Hwf1 : wf w1) by (by apply wf_received).
  assert (H1 : clock w1 = clock w ∧ syncs w1 = syncs w ∧
               timers w1 = [mkTimer (nextTimerId w) (clock w + DEBOUNCE_DELAY) v]).
  { subst w1. rewrite received_payload by done. unfold syncs. cbn.
    rewrite omap_app. cbn. by rewrite app_nil_r. }
  destruct H1 as (Hc1 & Hs1 & Hts1).
  destruct (IH w1 Hwf1) as (Hwf' & Hc & Hs & Hts).
  split; [done|]. split; [congruence|]. split; [congruence|].
  intros _. destruct ls as [|l' ls'].
  - cbn. eauto.
  - destruct Hts as [h Hh]; [done|]. exists h. by rewrite Hh, Hc1.
Qed.

(** X13.  Redundant delivery does not multiply synchronizations.  When one
    variant change is announced on the event bus and on [document] at the
    same moment, to an element with any number of registered listeners (at
    least one on [document]), exactly one synchronization for it starts,
    once a full debounce delay of quiet time has passed, and none before. *)
Theorem one_sync_per_change (w : World) (v : Value) (after : list Event) :
  wf w → docListeners w ≠ [] →
  forallb isQuiet after = true →
  syncs (run (BusEmit (variantPayload v) :: DocDispatch (variantPayload v)
              :: after) w)
  = syncs w ++ (if DEBOUNCE_DELAY <=? elapsed after then [v] else []).
Proof.
  intros Hwf Hdoc Hq. rewrite !run_cons.
  set (w1 := step (BusEmit (variantPayload v)) w).
  assert (H1 : wf w1 ∧ clock w1 = clock w ∧ syncs w1 = syncs w ∧
               docListeners w1 ≠ []).
  { subst w1. cbn [step]. destruct (eventBus w) as [hs|]; [|done].
    rewrite deliver_bus.
    destruct (foldl_received_payload v hs w Hwf) as (? & ? & ? & _).
    split; [done|]. split; [done|]. split; [done|].
    assert (Hkeep : ∀ (ls : list BusHandler) u,
              docListeners (foldl (λ w _, received (variantPayload v) w) u ls)
              = docListeners u).
    { induction ls as [|l ls IH]; intros u; [done|]. cbn [foldl].
      rewrite IH. unfold received, exec.
      destruct (passesGuard _); [|done]. by rewrite handleVariantChange_run. }
    by rewrite Hkeep. }
  destruct H1 as (Hwf1 & Hc1 & Hs1 & Hdoc1).
  cbn [step]. rewrite deliver_doc.
  destruct (foldl_received_payload v (docListeners w1) w1 Hwf1)
    as (Hwf2 & Hc2 & Hs2 & Hts2).
  destruct (Hts2 Hdoc1) as [h Hts].
  set (w2 := foldl _ w1 (docListeners w1)) in *.
  rewrite <- Hc2 in Hts. rewrite <- Hs1, <- Hs2.
  destruct (Nat.leb_spec DEBOUNCE_DELAY (elapsed after)) as [Hle|Hlt].
  - destruct (quiet_fires after w2 _ Hq Hts) as [_ ->]; [| |done].
    + cbn [due]. unfold DEBOUNCE_DELAY. lia.
    + cbn [due]. lia.
  - destruct (quiet_pending after w2 _ Hq Hts) as (_ & _ & -> & _);
      [cbn [due]; lia|]. by rewrite app_nil_r.
Qed.

Lemma one_sync_per_change_witness :
  let w := cycles 3 pageAB in
  syncs (run [BusEmit (variantPayload (VInt 2));
              DocDispatch (variantPayload (VInt 2)); Elapse 99; Frame;
              Elapse 1] w)
  = syncs w ++ [VInt 2].
Proof.
  apply (one_sync_per_change (cycles 3 pageAB) (VInt 2)
           [Elapse 99; Frame; Elapse 1]).
  - apply (wf_run [Attach; Detach; Attach; Detach; Attach; Detach]), wf_init.
  - discriminate.
  - reflexivity.
Defined.

(** ** Registration and other elements *)

Lemma loadScript_once n p :
  loadScript (S n) p = (0, (registerElement p).2).
Proof.
  cbn [loadScript]. destruct (registry p !! TAG) as [c|] eqn:Hp.
  - rewrite registerElement_defined by eauto. cbn.
    by rewrite loadScript_defined by eauto.
  - rewrite registerElement_fresh by done. cbn.
    by rewrite loadScript_defined by (cbn; rewrite lookup_insert_eq; eauto).
Qed.

(** X14.  Loading the script any number of times touches no other custom
    element: every other tag keeps its binding and its count of definitions,
    and a class that another script has already bound to the tag
    ['product-media'] stays bound to it. *)
Theorem registration_leaves_others (n : nat) (p : Page) :
  let p' := (loadScript n p).2 in
  (∀ name, name ≠ TAG →
     registry p' !! name = registry p !! name ∧
     timesDefined name p' = timesDefined name p) ∧
  (∀ c, registry p !! TAG = Some c →
     registry p' !! TAG = Some c ∧ defined p' = defined p).
Proof.
  cbn zeta. destruct n as [|n]; [done|]. rewrite loadScript_once. cbn [snd].
  destruct (registry p !! TAG) as [c|] eqn:Hp.
  - rewrite registerElement_defined by eauto. cbn [snd]. split; [done|].
    intros c' Hc'. by rewrite Hp.
  - rewrite registerElement_fresh by done. cbn [snd registry defined].
    split; [|done]. intros name Hne. split.
    + by rewrite lookup_insert_ne.
    + unfold timesDefined. cbn [defined].
      rewrite List.filter_app, length_app. cbn [List.filter].
      assert (Hneq : String.eqb name TAG = false) by (by apply String.eqb_neq).
      rewrite Hneq. cbn. lia.
Qed.

(** ** Detaching and frames *)

Lemma frame_withTimers ts w : frame (withTimers ts w) = withTimers ts (frame w).
Proof.
  unfold frame. cbn [rafQueue withTimers].
  change (withRafQueue [] (withTimers ts w))
    with (withTimers ts (withRafQueue [] w)).
  generalize (withRafQueue [] w) as u.
  induction (rafQueue w) as [|cb q IH]; intros u; [done|].
  cbn [foldl]. rewrite <- IH. f_equal.
  destruct cb; [by rewrite !runTask_refresh | by rewrite !runTask_announce].
Qed.

(** X15.  Detaching cancels the timeout but not the frame callbacks: a
    refresh or an announcement already queued still runs in the following
    frames exactly as it would have without the detachment, so detaching
    before or after any number of frames gives the same page. *)
Theorem detach_keeps_frame_callbacks (n : nat) (w : World) :
  frames n (step Detach w) = step Detach (frames n w).
Proof.
  revert w. induction n as [|n IH]; intros w; [done|].
  cbn [frames]. rewrite <- IH. f_equal.
  cbn [step]. rewrite !disconnectedCallback_run, frame_withTimers.
  destruct (control_frame w) as (Hc & _). unfold control in Hc.
  replace (debounceTimer (frame w)) with (debounceTimer w) by congruence.
  replace (timers (frame w)) with (timers w) by congruence. done.
Qed.

Example detach_after_sync_still_announces :
  trace (frames 2 (step Detach
                     (run [Attach; BusEmit (variantPayload (VInt 1)); Elapse 100]
                        pageAB)))
  = [ObsHandle (VInt 1); ObsSync (VInt 1);
     ObsUpdate Thumbs; ObsSlideTo Thumbs 0; ObsUpdate Main; ObsSlideTo Main 0;
     ObsDispatch "product-media:updated"].
Proof. reflexivity. Qed.
